(** * docker-stats: the metric reconciliation passes of [main.go]

    A shallow embedding of [updateContainers] and [updateDatas] together
    with the parts of the Docker client, of the Prometheus client and of
    [unix.Statfs] they touch.

    - Go [string] is [string] (a sequence of bytes).
    - [uint64] and [int64] are [Z]; operations that can overflow have their
      wrap-around written out ([sub64], [mul64], [uint64_of_int64]).
    - [float64] is the primitive binary64 type [float].
    - Go maps are [gmap]s; a lookup of a missing key yields the zero value.
    - The process-wide gauges are a function from the gauge variable to the
      contents of its vector; the three [known...] maps and the log output
      complete the state.
    - A run-time panic (which ends the process) is the [Panic] result.
    - The strings of the Docker API come out of [encoding/json] and are
      valid UTF-8; the names of directory entries are any bytes. *)

From Stdlib Require Import ZArith Floats.
From stdpp Require Import gmap strings list fin_maps.

#[global] Set Warnings "-clear-no-such-hyp".

(** ** Go primitives *)

Module strings.

(** [strings.HasPrefix(s, prefix)] *)
Fixpoint HasPrefix (s prefix : string) {struct prefix} : bool :=
  match prefix, s with
  | EmptyString, _ => true
  | String a prefix', String b s' => if Ascii.eqb a b then HasPrefix s' prefix' else false
  | String _ _, EmptyString => false
  end.

(** [s[n:]] for [n <= len(s)] *)
Fixpoint slice_from (n : nat) (s : string) : string :=
  match n, s with
  | O, _ => s
  | S n', String _ s' => slice_from n' s'
  | S _, EmptyString => EmptyString
  end.

(** [strings.TrimPrefix(s, prefix)]: [s] without the leading [prefix],
    or [s] itself when it does not start with [prefix]. *)
Definition TrimPrefix (s prefix : string) : string :=
  if HasPrefix s prefix then slice_from (String.length prefix) s else s.

End strings.

Module utf8.

(** The byte of a character. *)
Definition byte (a : Ascii.ascii) : N := Ascii.N_of_ascii a.

(** A continuation byte, [0x80..0xBF]. *)
Definition cont (b : N) : bool := (128 <=? b)%N && (b <=? 191)%N.

Definition between (lo hi b : N) : bool := (lo <=? b)%N && (b <=? hi)%N.

(** [utf8.ValidString(s)]: [s] consists of well-formed UTF-8 sequences only
    (no stray continuation byte, no truncated or overlong sequence, no
    surrogate, nothing above U+10FFFF). *)
Fixpoint ValidString (s : string) : bool :=
  match s with
  | EmptyString => true
  | String a0 s1 =>
      let b0 := byte a0 in
      if (b0 <? 128)%N then ValidString s1
      else
        match s1 with
        | EmptyString => false
        | String a1 s2 =>
            let b1 := byte a1 in
            if between 194 223 b0 then cont b1 && ValidString s2
            else
              match s2 with
              | EmptyString => false
              | String a2 s3 =>
                  let b2 := byte a2 in
                  if (b0 =? 224)%N then between 160 191 b1 && cont b2 && ValidString s3
                  else if between 225 236 b0 || between 238 239 b0
                       then cont b1 && cont b2 && ValidString s3
                  else if (b0 =? 237)%N then between 128 159 b1 && cont b2 && ValidString s3
                  else
                    match s3 with
                    | EmptyString => false
                    | String a3 s4 =>
                        let b3 := byte a3 in
                        if (b0 =? 240)%N
                        then between 144 191 b1 && cont b2 && cont b3 && ValidString s4
                        else if between 241 243 b0
                        then cont b1 && cont b2 && cont b3 && ValidString s4
                        else if (b0 =? 244)%N
                        then between 128 143 b1 && cont b2 && cont b3 && ValidString s4
                        else false
                    end
              end
        end
  end.

End utf8.

Definition two64 : Z := 2 ^ 64.

(** [a - b] on [uint64] *)
Definition sub64 (a b : Z) : Z := ((a - b) mod two64)%Z.

(** [a * b] on [uint64] *)
Definition mul64 (a b : Z) : Z := ((a * b) mod two64)%Z.

(** [uint64(x)] for [x : int64] *)
Definition uint64_of_int64 (x : Z) : Z := (x mod two64)%Z.

(** [float64(x)] for [x : uint64]: the nearest binary64 value, ties to even. *)
Definition float64 (x : Z) : float :=
  SF2Prim (binary_normalize 53 1024 x 0 false).

(** The untyped constant [1e9] converted to [float64]. *)
Definition f1e9 : float := 1e9%float.

(** Result of a computation that may panic. *)
Inductive result (A : Type) : Type :=
| Ok (a : A)
| Panic (msg : string).
Arguments Ok {A} a.
Arguments Panic {A} msg.

Definition bind {A B} (r : result A) (k : A → result B) : result B :=
  match r with
  | Ok a => k a
  | Panic msg => Panic msg
  end.

(** ** Docker API types ([github.com/docker/docker/api/types]) *)

Module types.

Record Container := {
  ID : string;
  Names : list string;
  Image : string;
  ImageID : string;
  Labels : gmap string string;
}.

Record PidsStats_t := { Current : Z }.

Record CPUUsage_t := {
  TotalUsage : Z;
  UsageInKernelmode : Z;
  UsageInUsermode : Z;
}.

Record CPUStats_t := { CPUUsage : CPUUsage_t }.

Record MemoryStats_t := {
  Usage : Z;
  Stats : gmap string Z;
  Limit : Z;
}.

Record NetworkStats := {
  RxBytes : Z;
  RxPackets : Z;
  RxErrors : Z;
  RxDropped : Z;
  TxBytes : Z;
  TxPackets : Z;
  TxErrors : Z;
  TxDropped : Z;
}.

Record StatsJSON := {
  PidsStats : PidsStats_t;
  CPUStats : CPUStats_t;
  MemoryStats : MemoryStats_t;
  Networks : gmap string NetworkStats;
}.

End types.

(** ** Docker client ([github.com/docker/docker/client]) as seen by one pass *)

Module client.

(** What [ContainerStatsOneShot] followed by decoding the body gives. *)
Inductive StatsOutcome :=
| StatsErr (err : string)      (* the call returned an error *)
| DecodeErr (err : string)     (* the body did not decode *)
| Decoded (stats : types.StatsJSON).

Record Client := {
  (* both results of [ContainerList]: the slice and the error *)
  ContainerList : list types.Container * option string;
  ContainerStatsOneShot : string → StatsOutcome;
}.

End client.

(** ** Prometheus client ([github.com/prometheus/client_golang/prometheus]) *)

Module prometheus.

Abbreviation Labels := (gmap string string).

(** The contents of one gauge vector: the value of each live label set. *)
Abbreviation GaugeVec := (gmap (gmap string string) float).

End prometheus.

(** The gauge variables of [main.go]. *)
Inductive Gauge :=
| pids | cpuUsageUser | cpuUsageKernel | cpuUsageTotal | memoryUsage | memoryLimit
| networkReceiveBytes | networkTransmitBytes
| networkReceivePackets | networkTransmitPackets
| networkReceiveErrors | networkTransmitErrors
| networkReceiveDropped | networkTransmitDropped
| dataFree | dataAvailable | dataSize | dataInodesFree | dataInodes.

#[global] Instance Gauge_eq_dec : EqDecision Gauge.
Proof. solve_decision. Defined.

Abbreviation Registry := (Gauge → gmap (gmap string string) float).

(** [g.With(labels)] panics when a label value is not valid UTF-8 (it also
    panics on label names other than the vector's, which the literals of
    [main.go] never have). The message names the label and quotes the
    value; here it is the fixed text. *)
Definition With (labels : prometheus.Labels) : result unit :=
  if bool_decide (map_Forall (λ _ value, utf8.ValidString value = true) labels)
  then Ok tt
  else Panic "label value is not valid UTF-8".

(** [g.With(labels).Set(v)] once [With] has gone through. In the container
    pass it always does: every string of a container descriptor and every
    interface name comes out of [encoding/json], which yields valid UTF-8
    only (it replaces invalid bytes by U+FFFD). The names [ReadDir] returns
    are raw bytes, so the filesystem pass calls [With] first. *)
Definition With_Set (g : Gauge) (labels : prometheus.Labels) (v : float)
    (reg : Registry) : Registry :=
  λ g', if decide (g' = g) then <[labels := v]> (reg g') else reg g'.

(** [g.Delete(labels)] *)
Definition Delete (g : Gauge) (labels : prometheus.Labels) (reg : Registry) : Registry :=
  λ g', if decide (g' = g) then delete labels (reg g') else reg g'.

(** ** [golang.org/x/sys/unix] and [io/ioutil] *)

Module unix.

Record Statfs_t := {
  Bsize : Z;     (* int64 *)
  Blocks : Z;
  Bfree : Z;
  Bavail : Z;
  Files : Z;
  Ffree : Z;
}.

End unix.

Module ioutil.

Record FileInfo := { Name : string; IsDir : bool }.

End ioutil.

(** The file system as seen by one pass. *)
Record FileSystem := {
  ReadDir : string → string + list ioutil.FileInfo;
  Statfs : string → string + unix.Statfs_t;
}.

(** ** Process state *)

Record State := {
  knownContainerIDs : gmap string prometheus.Labels;
  knownContainerNetworks : gmap string prometheus.Labels;
  knownDataNames : gmap string prometheus.Labels;
  registry : Registry;
  logged : list string;
}.

(** The state after [setup]: the [known...] maps are nil, every vector empty. *)
Definition setup : State := {|
  knownContainerIDs := ∅;
  knownContainerNetworks := ∅;
  knownDataNames := ∅;
  registry := λ _, ∅;
  logged := [];
|}.

(** [log.Print(msg, err)] (the time stamp is left out) *)
Definition log_Print (msg err : string) (out : list string) : list string :=
  out ++ [msg +:+ err].

(** ** [updateContainers] *)

(** [m[key]] on a [map[string]string] *)
Definition index_string (m : gmap string string) (key : string) : string :=
  default ""%string (m !! key).

(** [m[key]] on a [map[string]uint64] *)
Definition index_uint64 (m : gmap string Z) (key : string) : Z :=
  default 0%Z (m !! key).

(** [names[0]]: panics on an empty slice. *)
Definition index0 (names : list string) : result string :=
  match names with
  | [] => Panic "index out of range [0] with length 0"
  | name0 :: _ => Ok name0
  end.

(** The label literal of lines 183-190, [name0] being [container.Names[0]]. *)
Definition containerLabels (container : types.Container) (name0 : string)
    : prometheus.Labels :=
  {[ "container_id"%string := types.ID container;
     "container_name"%string := strings.TrimPrefix name0 "/";
     "compose_project"%string :=
       index_string (types.Labels container) "com.docker.compose.project";
     "compose_service"%string :=
       index_string (types.Labels container) "com.docker.compose.service";
     "container_image_id"%string := strings.TrimPrefix (types.ImageID container) "sha256:";
     "container_image_name"%string := types.Image container ]}.

(** The label literal of lines 202-210. *)
Definition networkLabels (container : types.Container) (name0 intf : string)
    : prometheus.Labels :=
  {[ "container_id"%string := types.ID container;
     "container_name"%string := strings.TrimPrefix name0 "/";
     "compose_project"%string :=
       index_string (types.Labels container) "com.docker.compose.project";
     "compose_service"%string :=
       index_string (types.Labels container) "com.docker.compose.service";
     "container_image_id"%string := strings.TrimPrefix (types.ImageID container) "sha256:";
     "container_image_name"%string := types.Image container;
     "interface"%string := intf ]}.

(** Evaluating the label literal for a container descriptor. *)
Definition buildLabels (container : types.Container) : result prometheus.Labels :=
  bind (index0 (types.Names container)) (λ name0, Ok (containerLabels container name0)).

(** The key of [newKnownContainerNetworks]: [container.ID+intf]. *)
Definition networkKey (id intf : string) : string := id +:+ intf.

(** Lines 194-199. *)
Definition setContainerGauges (labels : prometheus.Labels) (stats : types.StatsJSON)
    (reg : Registry) : Registry :=
  let cpu := types.CPUUsage (types.CPUStats stats) in
  let mem := types.MemoryStats stats in
  let reg := With_Set pids labels (float64 (types.Current (types.PidsStats stats))) reg in
  let reg := With_Set cpuUsageUser labels (float64 (types.UsageInUsermode cpu) / f1e9)%float reg in
  let reg := With_Set cpuUsageKernel labels (float64 (types.UsageInKernelmode cpu) / f1e9)%float reg in
  let reg := With_Set cpuUsageTotal labels (float64 (types.TotalUsage cpu) / f1e9)%float reg in
  let reg := With_Set memoryUsage labels
               (float64 (sub64 (types.Usage mem) (index_uint64 (types.Stats mem) "cache"))) reg in
  let reg := With_Set memoryLimit labels (float64 (types.Limit mem)) reg in
  reg.

(** Lines 212-219. *)
Definition setNetworkGauges (labels : prometheus.Labels) (net : types.NetworkStats)
    (reg : Registry) : Registry :=
  let reg := With_Set networkReceiveBytes labels (float64 (types.RxBytes net)) reg in
  let reg := With_Set networkTransmitBytes labels (float64 (types.TxBytes net)) reg in
  let reg := With_Set networkReceivePackets labels (float64 (types.RxPackets net)) reg in
  let reg := With_Set networkTransmitPackets labels (float64 (types.TxPackets net)) reg in
  let reg := With_Set networkReceiveErrors labels (float64 (types.RxErrors net)) reg in
  let reg := With_Set networkTransmitErrors labels (float64 (types.TxErrors net)) reg in
  let reg := With_Set networkReceiveDropped labels (float64 (types.RxDropped net)) reg in
  let reg := With_Set networkTransmitDropped labels (float64 (types.TxDropped net)) reg in
  reg.

(** Lines 224-229. *)
Definition deleteContainerGauges (labels : prometheus.Labels) (reg : Registry) : Registry :=
  let reg := Delete pids labels reg in
  let reg := Delete cpuUsageUser labels reg in
  let reg := Delete cpuUsageKernel labels reg in
  let reg := Delete cpuUsageTotal labels reg in
  let reg := Delete memoryUsage labels reg in
  let reg := Delete memoryLimit labels reg in
  reg.

(** Lines 234-241. *)
Definition deleteNetworkGauges (labels : prometheus.Labels) (reg : Registry) : Registry :=
  let reg := Delete networkReceiveBytes labels reg in
  let reg := Delete networkTransmitBytes labels reg in
  let reg := Delete networkReceivePackets labels reg in
  let reg := Delete networkTransmitPackets labels reg in
  let reg := Delete networkReceiveErrors labels reg in
  let reg := Delete networkTransmitErrors labels reg in
  let reg := Delete networkReceiveDropped labels reg in
  let reg := Delete networkTransmitDropped labels reg in
  reg.

(** The variables one pass of [updateContainers] works on. *)
Record Cycle := {
  newKnownContainerIDs : gmap string prometheus.Labels;
  newKnownContainerNetworks : gmap string prometheus.Labels;
  gauges : Registry;
  output : list string;
}.

Definition cycle_log (msg err : string) (cy : Cycle) : Cycle :=
  {| newKnownContainerIDs := newKnownContainerIDs cy;
     newKnownContainerNetworks := newKnownContainerNetworks cy;
     gauges := gauges cy;
     output := log_Print msg err (output cy) |}.

(** One iteration of [for intf, net := range stats.Networks]. *)
Definition networkStep (container : types.Container) (name0 : string)
    (intf : string) (net : types.NetworkStats) (cy : Cycle) : Cycle :=
  let labels := networkLabels container name0 intf in
  {| newKnownContainerIDs := newKnownContainerIDs cy;
     newKnownContainerNetworks :=
       <[networkKey (types.ID container) intf := labels]> (newKnownContainerNetworks cy);
     gauges := setNetworkGauges labels net (gauges cy);
     output := output cy |}.

(** One iteration of [for _, container := range containers]. *)
Definition containerStep (docker : client.Client) (container : types.Container)
    (cy : Cycle) : result Cycle :=
  match client.ContainerStatsOneShot docker (types.ID container) with
  | client.StatsErr err => Ok (cycle_log "Failed to get container stats: " err cy)
  | client.DecodeErr err => Ok (cycle_log "Failed to parse container stats: " err cy)
  | client.Decoded stats =>
      bind (index0 (types.Names container)) (λ name0,
        let labels := containerLabels container name0 in
        let cy :=
          {| newKnownContainerIDs := <[types.ID container := labels]> (newKnownContainerIDs cy);
             newKnownContainerNetworks := newKnownContainerNetworks cy;
             gauges := setContainerGauges labels stats (gauges cy);
             output := output cy |} in
        Ok (map_fold (networkStep container name0) cy (types.Networks stats)))
  end.

Fixpoint forContainers (docker : client.Client) (containers : list types.Container)
    (cy : Cycle) : result Cycle :=
  match containers with
  | [] => Ok cy
  | container :: rest => bind (containerStep docker container cy) (forContainers docker rest)
  end.

(** [for id, labels := range known { if new[id] == nil { delete labels } }].
    Go ranges over a map in no fixed order; the result does not depend on it
    ([removeVanished_spec]). *)
Definition removeVanished (deleteGauges : prometheus.Labels → Registry → Registry)
    (known new : gmap string prometheus.Labels) (reg : Registry) : Registry :=
  map_fold (λ id labels reg,
              match new !! id with
              | None => deleteGauges labels reg
              | Some _ => reg
              end) reg known.

Definition updateContainers (docker : client.Client) (st : State) : result State :=
  let cy := {| newKnownContainerIDs := ∅;
               newKnownContainerNetworks := ∅;
               gauges := registry st;
               output := logged st |} in
  let '(containers, err) := client.ContainerList docker in
  let cy := match err with
            | Some e => cycle_log "Failed to get container list: " e cy
            | None => cy
            end in
  bind (forContainers docker containers cy) (λ cy,
    let reg := removeVanished deleteContainerGauges
                 (knownContainerIDs st) (newKnownContainerIDs cy) (gauges cy) in
    let reg := removeVanished deleteNetworkGauges
                 (knownContainerNetworks st) (newKnownContainerNetworks cy) reg in
    Ok {| knownContainerIDs := newKnownContainerIDs cy;
          knownContainerNetworks := newKnownContainerNetworks cy;
          knownDataNames := knownDataNames st;
          registry := reg;
          logged := output cy |}).

(** ** [updateDatas] *)

(** Lines 275-279. *)
Definition setDataGauges (labels : prometheus.Labels) (fs : unix.Statfs_t)
    (reg : Registry) : Registry :=
  let bsize := uint64_of_int64 (unix.Bsize fs) in
  let reg := With_Set dataFree labels (float64 (mul64 (unix.Bfree fs) bsize)) reg in
  let reg := With_Set dataAvailable labels (float64 (mul64 (unix.Bavail fs) bsize)) reg in
  let reg := With_Set dataSize labels (float64 (mul64 (unix.Blocks fs) bsize)) reg in
  let reg := With_Set dataInodesFree labels (float64 (unix.Ffree fs)) reg in
  let reg := With_Set dataInodes labels (float64 (unix.Files fs)) reg in
  reg.

(** Lines 283-287. *)
Definition deleteDataGauges (labels : prometheus.Labels) (reg : Registry) : Registry :=
  let reg := Delete dataFree labels reg in
  let reg := Delete dataAvailable labels reg in
  let reg := Delete dataSize labels reg in
  let reg := Delete dataInodesFree labels reg in
  let reg := Delete dataInodes labels reg in
  reg.

(** One iteration of [for _, path := range paths]: the first [With] of
    lines 275-279 panics on a name that is not valid UTF-8, before anything
    is set for the path. *)
Definition pathStep (os : FileSystem) (basepath path : string)
    (acc : Registry * list string) : result (Registry * list string) :=
  let '(reg, out) := acc in
  match Statfs os (basepath +:+ "/" +:+ path) with
  | inl err =>
      Ok (reg, log_Print ("Failed to stat " +:+ basepath +:+ "/" +:+ path +:+ ": ") err out)
  | inr fs =>
      let labels : prometheus.Labels := {[ "data_name"%string := path ]} in
      bind (With labels) (λ _, Ok (setDataGauges labels fs reg, out))
  end.

Fixpoint forPaths (os : FileSystem) (basepath : string) (paths : list string)
    (acc : Registry * list string) : result (Registry * list string) :=
  match paths with
  | [] => Ok acc
  | path :: rest => bind (pathStep os basepath path acc) (forPaths os basepath rest)
  end.

(** Lines 250-264: the paths to stat, or the error of [ReadDir]. *)
Definition dataPaths (os : FileSystem) (basepath : string) : string + list string :=
  if String.eqb basepath "/" then inr ["/"%string]
  else match ReadDir os basepath with
       | inl err => inl err
       | inr files => inr (ioutil.Name <$> filter (λ f, ioutil.IsDir f = true) files)
       end.

Definition updateDatas (os : FileSystem) (basepath : string) (st : State) : result State :=
  let newKnownDataNames : gmap string prometheus.Labels := ∅ in
  match dataPaths os basepath with
  | inl err =>
      Ok {| knownContainerIDs := knownContainerIDs st;
            knownContainerNetworks := knownContainerNetworks st;
            knownDataNames := knownDataNames st;
            registry := registry st;
            logged := log_Print "Failed to get data names: " err (logged st) |}
  | inr paths =>
      bind (forPaths os basepath paths (registry st, logged st)) (λ acc,
        let '(reg, out) := acc in
        let reg := removeVanished deleteDataGauges (knownDataNames st) newKnownDataNames reg in
        Ok {| knownContainerIDs := knownContainerIDs st;
              knownContainerNetworks := knownContainerNetworks st;
              knownDataNames := newKnownDataNames;
              registry := reg;
              logged := out |})
  end.

(** One turn of the loop of [updateMetrics]. *)
Definition updateMetricsStep (docker : client.Client) (os : FileSystem)
    (basepath : string) (st : State) : result State :=
  bind (updateContainers docker st) (updateDatas os basepath).

(** * Vocabulary of the properties *)

(** What an iteration of the path loop does to the gauges and the log when
    [With] goes through. *)
Definition pathStepEffect (os : FileSystem) (basepath path : string)
    (acc : Registry * list string) : Registry * list string :=
  let '(reg, out) := acc in
  match Statfs os (basepath +:+ "/" +:+ path) with
  | inl err => (reg, log_Print ("Failed to stat " +:+ basepath +:+ "/" +:+ path +:+ ": ") err out)
  | inr fs =>
      let labels : prometheus.Labels := {[ "data_name"%string := path ]} in
      (setDataGauges labels fs reg, out)
  end.

(** What a filesystem pass leaves when no [With] panics
    ([updateDatas_Ok], [updateDatas_total]). *)
Definition updateDatasEffect (os : FileSystem) (basepath : string) (st : State) : State :=
  let newKnownDataNames : gmap string prometheus.Labels := ∅ in
  match dataPaths os basepath with
  | inl err =>
      {| knownContainerIDs := knownContainerIDs st;
         knownContainerNetworks := knownContainerNetworks st;
         knownDataNames := knownDataNames st;
         registry := registry st;
         logged := log_Print "Failed to get data names: " err (logged st) |}
  | inr paths =>
      let '(reg, out) := foldl (λ acc path, pathStepEffect os basepath path acc)
                               (registry st, logged st) paths in
      let reg := removeVanished deleteDataGauges (knownDataNames st) newKnownDataNames reg in
      {| knownContainerIDs := knownContainerIDs st;
         knownContainerNetworks := knownContainerNetworks st;
         knownDataNames := newKnownDataNames;
         registry := reg;
         logged := out |}
  end.

(** The paths at which an iteration of the path loop panics: [Statfs]
    succeeds and the name is not valid UTF-8. *)
Definition withPanics (os : FileSystem) (basepath path : string) : bool :=
  match Statfs os (basepath +:+ "/" +:+ path) with
  | inl _ => false
  | inr _ => negb (utf8.ValidString path)
  end.

(** The three kinds of series. *)
Inductive Kind := ContainerKind | NetworkKind | DataKind.

#[global] Instance Kind_eq_dec : EqDecision Kind.
Proof. solve_decision. Defined.

Definition kindOf (g : Gauge) : Kind :=
  match g with
  | pids | cpuUsageUser | cpuUsageKernel | cpuUsageTotal | memoryUsage | memoryLimit =>
      ContainerKind
  | networkReceiveBytes | networkTransmitBytes | networkReceivePackets
  | networkTransmitPackets | networkReceiveErrors | networkTransmitErrors
  | networkReceiveDropped | networkTransmitDropped => NetworkKind
  | dataFree | dataAvailable | dataSize | dataInodesFree | dataInodes => DataKind
  end.

(** The value each container-level gauge receives from a usage sample. *)
Definition containerValue (g : Gauge) (stats : types.StatsJSON) : option float :=
  let cpu := types.CPUUsage (types.CPUStats stats) in
  let mem := types.MemoryStats stats in
  match g with
  | pids => Some (float64 (types.Current (types.PidsStats stats)))
  | cpuUsageUser => Some (float64 (types.UsageInUsermode cpu) / f1e9)%float
  | cpuUsageKernel => Some (float64 (types.UsageInKernelmode cpu) / f1e9)%float
  | cpuUsageTotal => Some (float64 (types.TotalUsage cpu) / f1e9)%float
  | memoryUsage =>
      Some (float64 (sub64 (types.Usage mem) (index_uint64 (types.Stats mem) "cache")))
  | memoryLimit => Some (float64 (types.Limit mem))
  | _ => None
  end.

(** The value each network-level gauge receives from an interface's counters. *)
Definition networkValue (g : Gauge) (net : types.NetworkStats) : option float :=
  match g with
  | networkReceiveBytes => Some (float64 (types.RxBytes net))
  | networkTransmitBytes => Some (float64 (types.TxBytes net))
  | networkReceivePackets => Some (float64 (types.RxPackets net))
  | networkTransmitPackets => Some (float64 (types.TxPackets net))
  | networkReceiveErrors => Some (float64 (types.RxErrors net))
  | networkTransmitErrors => Some (float64 (types.TxErrors net))
  | networkReceiveDropped => Some (float64 (types.RxDropped net))
  | networkTransmitDropped => Some (float64 (types.TxDropped net))
  | _ => None
  end.

(** The value each filesystem-level gauge receives from a [Statfs_t]. *)
Definition dataValue (g : Gauge) (fs : unix.Statfs_t) : option float :=
  let bsize := uint64_of_int64 (unix.Bsize fs) in
  match g with
  | dataFree => Some (float64 (mul64 (unix.Bfree fs) bsize))
  | dataAvailable => Some (float64 (mul64 (unix.Bavail fs) bsize))
  | dataSize => Some (float64 (mul64 (unix.Blocks fs) bsize))
  | dataInodesFree => Some (float64 (unix.Ffree fs))
  | dataInodes => Some (float64 (unix.Files fs))
  | _ => None
  end.

Definition deleteGauges (k : Kind) : prometheus.Labels → Registry → Registry :=
  match k with
  | ContainerKind => deleteContainerGauges
  | NetworkKind => deleteNetworkGauges
  | DataKind => deleteDataGauges
  end.

(** What one pass writes, in the order it writes it. *)
Inductive Write :=
| WLog (msg err : string)
| WContainer (container : types.Container) (name0 : string) (stats : types.StatsJSON)
| WNetwork (container : types.Container) (name0 intf : string) (net : types.NetworkStats).

Definition applyWrite (cy : Cycle) (w : Write) : Cycle :=
  match w with
  | WLog msg err => cycle_log msg err cy
  | WContainer container name0 stats =>
      let labels := containerLabels container name0 in
      {| newKnownContainerIDs := <[types.ID container := labels]> (newKnownContainerIDs cy);
         newKnownContainerNetworks := newKnownContainerNetworks cy;
         gauges := setContainerGauges labels stats (gauges cy);
         output := output cy |}
  | WNetwork container name0 intf net => networkStep container name0 intf net cy
  end.

Definition networkWrites (container : types.Container) (name0 : string)
    (networks : gmap string types.NetworkStats) : list Write :=
  (λ kv, WNetwork container name0 kv.1 kv.2) <$> reverse (map_to_list networks).

Definition stepWrites (docker : client.Client) (container : types.Container) : list Write :=
  match client.ContainerStatsOneShot docker (types.ID container) with
  | client.StatsErr err => [WLog "Failed to get container stats: " err]
  | client.DecodeErr err => [WLog "Failed to parse container stats: " err]
  | client.Decoded stats =>
      match types.Names container with
      | [] => []
      | name0 :: _ =>
          WContainer container name0 stats
            :: networkWrites container name0 (types.Networks stats)
      end
  end.

Definition passWrites (docker : client.Client) (containers : list types.Container)
    : list Write :=
  containers ≫= stepWrites docker.

(** The key and label set a write records in [newKnownContainerIDs]. *)
Definition writeID (w : Write) : option (string * prometheus.Labels) :=
  match w with
  | WContainer container name0 _ => Some (types.ID container, containerLabels container name0)
  | _ => None
  end.

(** The key and label set a write records in [newKnownContainerNetworks]. *)
Definition writeNet (w : Write) : option (string * prometheus.Labels) :=
  match w with
  | WNetwork container name0 intf _ =>
      Some (networkKey (types.ID container) intf, networkLabels container name0 intf)
  | _ => None
  end.

(** The label set and value a write sets in gauge [g]. *)
Definition writeValue (g : Gauge) (w : Write) : option (prometheus.Labels * float) :=
  match w with
  | WLog _ _ => None
  | WContainer container name0 stats =>
      (λ v, (containerLabels container name0, v)) <$> containerValue g stats
  | WNetwork container name0 intf net =>
      (λ v, (networkLabels container name0 intf, v)) <$> networkValue g net
  end.

(** The containers whose usage sample was fetched and decoded in this pass. *)
Definition sampled (docker : client.Client) (container : types.Container)
    (name0 : string) (stats : types.StatsJSON) : Prop :=
  container ∈ (client.ContainerList docker).1
  ∧ client.ContainerStatsOneShot docker (types.ID container) = client.Decoded stats
  ∧ head (types.Names container) = Some name0.

(** The variables at the start of the container loop. *)
Definition startCycle (docker : client.Client) (st : State) : Cycle :=
  let cy := {| newKnownContainerIDs := ∅;
               newKnownContainerNetworks := ∅;
               gauges := registry st;
               output := logged st |} in
  match (client.ContainerList docker).2 with
  | Some e => cycle_log "Failed to get container list: " e cy
  | None => cy
  end.

Definition endCycle (docker : client.Client) (st : State) : Cycle :=
  foldl applyWrite (startCycle docker st) (passWrites docker (client.ContainerList docker).1).

(** In every reachable state the label set recorded under a container key
    carries that key as its [container_id], and the label set recorded under
    a network key carries the container ID and interface name the key is the
    concatenation of. *)
Definition snapshot_keyed (st : State) : Prop :=
  (∀ id L, knownContainerIDs st !! id = Some L → L !! "container_id"%string = Some id)
  ∧ (∀ key L, knownContainerNetworks st !! key = Some L →
       ∃ id intf, L !! "container_id"%string = Some id
                  ∧ L !! "interface"%string = Some intf
                  ∧ key = networkKey id intf).

(** The states the loop of [updateMetrics] goes through, whatever the
    runtime and the file system answer. *)
Inductive reachable : State → Prop :=
| reachable_setup : reachable setup
| reachable_updateContainers docker st st' :
    reachable st → updateContainers docker st = Ok st' → reachable st'
| reachable_updateDatas os basepath st st' :
    reachable st → updateDatas os basepath st = Ok st' → reachable st'.

(** The state a pass leaves, [st] itself if it panicked. *)
Definition after (docker : client.Client) (st : State) : State :=
  match updateContainers docker st with
  | Ok st' => st'
  | Panic _ => st
  end.

(** The state a filesystem pass leaves, [st] itself if it panicked. *)
Definition afterDatas (os : FileSystem) (basepath : string) (st : State) : State :=
  match updateDatas os basepath st with
  | Ok st' => st'
  | Panic _ => st
  end.

(** The label sets derived from the containers sampled in a pass. *)
Definition observedContainerLabels (docker : client.Client) : list prometheus.Labels :=
  (client.ContainerList docker).1 ≫= λ container,
    match client.ContainerStatsOneShot docker (types.ID container), types.Names container with
    | client.Decoded _, name0 :: _ => [containerLabels container name0]
    | _, _ => []
    end.

(** The label sets derived from the interfaces of the containers sampled in
    a pass. *)
Definition observedNetworkLabels (docker : client.Client) : list prometheus.Labels :=
  (client.ContainerList docker).1 ≫= λ container,
    match client.ContainerStatsOneShot docker (types.ID container), types.Names container with
    | client.Decoded stats, name0 :: _ =>
        (λ kv, networkLabels container name0 kv.1) <$> map_to_list (types.Networks stats)
    | _, _ => []
    end.

(** Every live container-level or network-level label set is the one
    recorded in the snapshot: this is what lets the next pass find it. *)
Definition tracked (st : State) : Prop :=
  ∀ g L, is_Some (registry st g !! L) →
    (kindOf g = ContainerKind → ∃ id, knownContainerIDs st !! id = Some L)
    ∧ (kindOf g = NetworkKind → ∃ key, knownContainerNetworks st !! key = Some L).

(** An identity key carries one label set: the entities sampled in the pass
    that have the key of a sampled entity have its label set too, and so has
    the previous snapshot if it holds the key. *)
Definition key_determines_labels (docker : client.Client) (st : State) : Prop :=
  (∀ container name0 stats,
     sampled docker container name0 stats →
     (∀ L, knownContainerIDs st !! types.ID container = Some L →
           L = containerLabels container name0)
     ∧ (∀ container' name0' stats',
          sampled docker container' name0' stats' →
          types.ID container' = types.ID container →
          containerLabels container' name0' = containerLabels container name0))
  ∧ (∀ container name0 stats intf,
       sampled docker container name0 stats →
       is_Some (types.Networks stats !! intf) →
       (∀ L, knownContainerNetworks st !! networkKey (types.ID container) intf = Some L →
             L = networkLabels container name0 intf)
       ∧ (∀ container' name0' stats' intf',
            sampled docker container' name0' stats' →
            is_Some (types.Networks stats' !! intf') →
            networkKey (types.ID container') intf' = networkKey (types.ID container) intf →
            networkLabels container' name0' intf' = networkLabels container name0 intf)).

(** * Concrete hosts, used to run the passes *)

Definition ex_eth0 : types.NetworkStats := {|
  types.RxBytes := 1024; types.RxPackets := 16; types.RxErrors := 0; types.RxDropped := 1;
  types.TxBytes := 2048; types.TxPackets := 32; types.TxErrors := 2; types.TxDropped := 0;
|}.

Definition ex_stats (usage cache : Z) : types.StatsJSON := {|
  types.PidsStats := {| types.Current := 3 |};
  types.CPUStats := {| types.CPUUsage := {|
    types.TotalUsage := 3500000000;
    types.UsageInKernelmode := 1000000000;
    types.UsageInUsermode := 2500000000 |} |};
  types.MemoryStats := {|
    types.Usage := usage;
    types.Stats := {[ "cache"%string := cache ]};
    types.Limit := 200000000 |};
  types.Networks := {[ "eth0"%string := ex_eth0 ]};
|}.

Definition ex_web : types.Container := {|
  types.ID := "c0ffee01";
  types.Names := ["/web-1"%string];
  types.Image := "nginx:latest";
  types.ImageID := "sha256:abcd1234";
  types.Labels := {[ "com.docker.compose.project"%string := "shop"%string;
                     "com.docker.compose.service"%string := "web"%string ]};
|}.

(** One running container whose sample is fetched. *)
Definition ex_docker (usage cache : Z) : client.Client := {|
  client.ContainerList := ([ex_web], None);
  client.ContainerStatsOneShot := λ _, client.Decoded (ex_stats usage cache);
|}.

(** A sampled container without a name. *)
Definition ex_nameless : types.Container := {|
  types.ID := "c0ffee02";
  types.Names := [];
  types.Image := "nginx:latest";
  types.ImageID := "sha256:abcd1234";
  types.Labels := ∅;
|}.

Definition ex_docker_nameless : client.Client := {|
  client.ContainerList := ([ex_nameless], None);
  client.ContainerStatsOneShot := λ _, client.Decoded (ex_stats 100000000 20000000);
|}.




(** The runtime does not answer. *)
Definition ex_docker_down : client.Client := {|
  client.ContainerList := ([], Some "connection refused"%string);
  client.ContainerStatsOneShot := λ _, client.StatsErr "connection refused";
|}.

(** The runtime answers the listing, and the answer breaks off while it is
    decoded: the call hands back its error together with the descriptors
    decoded so far. *)
Definition ex_docker_partial : client.Client := {|
  client.ContainerList := ([ex_web], Some "unexpected EOF"%string);
  client.ContainerStatsOneShot := λ _, client.Decoded (ex_stats 150000000 30000000);
|}.

(** The same, with a descriptor without a name among those handed back. *)
Definition ex_docker_partial_nameless : client.Client := {|
  client.ContainerList := ([ex_web; ex_nameless], Some "unexpected EOF"%string);
  client.ContainerStatsOneShot := λ _, client.Decoded (ex_stats 150000000 30000000);
|}.

(** The container is listed but its sample cannot be fetched. *)
Definition ex_docker_failing : client.Client := {|
  client.ContainerList := ([ex_web], None);
  client.ContainerStatsOneShot := λ _, client.StatsErr "context deadline exceeded";
|}.

(** A data directory with one mount below it, and the same directory once
    the mount is gone. *)
Definition ex_statfs : unix.Statfs_t := {|
  unix.Bsize := 4096; unix.Blocks := 1000; unix.Bfree := 400; unix.Bavail := 300;
  unix.Files := 5000; unix.Ffree := 4000;
|}.

Definition ex_fs_mounted : FileSystem := {|
  ReadDir := λ _, inr [ {| ioutil.Name := "pgdata"; ioutil.IsDir := true |};
                        {| ioutil.Name := "README"; ioutil.IsDir := false |} ];
  Statfs := λ _, inr ex_statfs;
|}.

Definition ex_fs_unmounted : FileSystem := {|
  ReadDir := λ _, inr [ {| ioutil.Name := "README"; ioutil.IsDir := false |} ];
  Statfs := λ _, inl "no such file or directory"%string;
|}.

(** The container of [ex_web] under a new name. *)
Definition ex_web_renamed : types.Container := {|
  types.ID := "c0ffee01";
  types.Names := ["/web-2"%string];
  types.Image := "nginx:latest";
  types.ImageID := "sha256:abcd1234";
  types.Labels := {[ "com.docker.compose.project"%string := "shop"%string;
                     "com.docker.compose.service"%string := "web"%string ]};
|}.

Definition ex_docker_renamed : client.Client := {|
  client.ContainerList := ([ex_web_renamed], None);
  client.ContainerStatsOneShot := λ _, client.Decoded (ex_stats 100000000 20000000);
|}.

(** * The rest of [main.go] *)

(** ** [setup]: the vectors, their names and their label names *)

Definition containerPrefix : string := "container_".

Definition dataPrefix : string := "container_data_".

(** [containerLabels] of [setup] (the name is taken by the label literal). *)
Definition containerLabelNames : list string :=
  ["container_id"; "container_name"; "compose_project"; "compose_service";
   "container_image_id"; "container_image_name"]%string.

(** [containerNetworkLabels := append(containerLabels, "interface")] *)
Definition containerNetworkLabelNames : list string :=
  containerLabelNames ++ ["interface"%string].

(** [dataLabels] *)
Definition dataLabelNames : list string := ["data_name"%string].

(** The [Name] each vector is created with. *)
Definition gaugeName (g : Gauge) : string :=
  match g with
  | pids => containerPrefix +:+ "pids"
  | cpuUsageUser => containerPrefix +:+ "cpu_usage_user_seconds_total"
  | cpuUsageKernel => containerPrefix +:+ "cpu_usage_kernel_seconds_total"
  | cpuUsageTotal => containerPrefix +:+ "cpu_usage_seconds_total"
  | memoryUsage => containerPrefix +:+ "memory_usage_bytes"
  | memoryLimit => containerPrefix +:+ "memory_limit_bytes"
  | networkReceiveBytes => containerPrefix +:+ "network_receive_bytes_total"
  | networkTransmitBytes => containerPrefix +:+ "network_transmit_bytes_total"
  | networkReceivePackets => containerPrefix +:+ "network_receive_packets_total"
  | networkTransmitPackets => containerPrefix +:+ "network_transmit_packets_total"
  | networkReceiveErrors => containerPrefix +:+ "network_receive_errors_total"
  | networkTransmitErrors => containerPrefix +:+ "network_transmit_errors_total"
  | networkReceiveDropped => containerPrefix +:+ "network_receive_dropped_total"
  | networkTransmitDropped => containerPrefix +:+ "network_transmit_dropped_total"
  | dataFree => dataPrefix +:+ "free_bytes"
  | dataAvailable => dataPrefix +:+ "available_bytes"
  | dataSize => dataPrefix +:+ "size_bytes"
  | dataInodesFree => dataPrefix +:+ "free_inodes"
  | dataInodes => dataPrefix +:+ "inodes"
  end.

(** The label names each vector is created with. *)
Definition gaugeLabelNames (g : Gauge) : list string :=
  match g with
  | pids | cpuUsageUser | cpuUsageKernel | cpuUsageTotal | memoryUsage | memoryLimit =>
      containerLabelNames
  | networkReceiveBytes | networkTransmitBytes | networkReceivePackets
  | networkTransmitPackets | networkReceiveErrors | networkTransmitErrors
  | networkReceiveDropped | networkTransmitDropped => containerNetworkLabelNames
  | dataFree | dataAvailable | dataSize | dataInodesFree | dataInodes => dataLabelNames
  end.

(** The vectors in the order [setup] hands them to [prometheus.MustRegister]. *)
Definition registered : list Gauge :=
  [pids; cpuUsageUser; cpuUsageKernel; cpuUsageTotal; memoryUsage; memoryLimit;
   networkReceiveBytes; networkTransmitBytes; networkReceivePackets;
   networkTransmitPackets; networkReceiveErrors; networkTransmitErrors;
   networkReceiveDropped; networkTransmitDropped;
   dataFree; dataAvailable; dataSize; dataInodesFree; dataInodes].

(** ** [updateMetrics] *)

(** The first turns of [for { updateContainers(docker); updateDatas(basepath) }],
    one for each answer of the runtime and of the file system. The loop has
    no exit; a panic ends it. *)
Fixpoint updateMetrics (basepath : string) (answers : list (client.Client * FileSystem))
    (st : State) : result State :=
  match answers with
  | [] => Ok st
  | (docker, os) :: rest =>
      bind (updateMetricsStep docker os basepath st) (updateMetrics basepath rest)
  end.

(** ** [main] *)

(** The first lines of [main]: the base path taken from [os.Args]. [log.Fatal]
    ends the process, like a panic. *)
Definition mainBasepath (os : FileSystem) (args : list string) : result string :=
  let basepath := "/"%string in
  if decide (1 < length args) then
    let arg1 := default ""%string (args !! 1) in
    match ReadDir os arg1 with
    | inl err => Panic err
    | inr _ => Ok arg1
    end
  else Ok basepath.

(** * Vocabulary of the further properties *)

(** The lines a container pass logs for the containers of the listing. *)
Definition failureLog (docker : client.Client) (containers : list types.Container)
    : list string :=
  containers ≫= λ container,
    match client.ContainerStatsOneShot docker (types.ID container) with
    | client.StatsErr err => ["Failed to get container stats: " +:+ err]
    | client.DecodeErr err => ["Failed to parse container stats: " +:+ err]
    | client.Decoded _ => []
    end.

(** The line a container pass logs for the listing itself. *)
Definition listLog (docker : client.Client) : list string :=
  match (client.ContainerList docker).2 with
  | Some err => ["Failed to get container list: " +:+ err]
  | None => []
  end.

(** The lines a write adds to the log. *)
Definition writeLog (w : Write) : list string :=
  match w with
  | WLog msg err => [msg +:+ err]
  | _ => []
  end.

(** The lines a filesystem pass logs for the paths it stats. *)
Definition statFailureLog (os : FileSystem) (basepath : string) (paths : list string)
    : list string :=
  paths ≫= λ path,
    match Statfs os (basepath +:+ "/" +:+ path) with
    | inl err => [("Failed to stat " +:+ basepath +:+ "/" +:+ path +:+ ": ") +:+ err]
    | inr _ => []
    end.

(** What the loop of lines 266-280 does over the paths when no [With]
    panics. *)
Definition forPathsEffect (os : FileSystem) (basepath : string) (paths : list string)
    (acc : Registry * list string) : Registry * list string :=
  foldl (λ acc path, pathStepEffect os basepath path acc) acc paths.

(** The label literal of line 273. *)
Definition dataLabels (path : string) : prometheus.Labels :=
  {[ "data_name"%string := path ]}.

(** The label literal a gauge is used with, for the entity at hand. *)
Definition labelsFor (g : Gauge) (container : types.Container) (name0 intf path : string)
    : prometheus.Labels :=
  match kindOf g with
  | ContainerKind => containerLabels container name0
  | NetworkKind => networkLabels container name0 intf
  | DataKind => dataLabels path
  end.

(** Every turn of a run meets the condition of [key_determines_labels]. *)
Fixpoint stable_run (basepath : string) (answers : list (client.Client * FileSystem))
    (st : State) : Prop :=
  match answers with
  | [] => True
  | (docker, os) :: rest =>
      key_determines_labels docker st
      ∧ match updateMetricsStep docker os basepath st with
        | Ok st' => stable_run basepath rest st'
        | Panic _ => True
        end
  end.

(** * Further hosts *)

Definition ex_db : types.Container := {|
  types.ID := "c0ffee03";
  types.Names := ["/db-1"%string];
  types.Image := "postgres:16";
  types.ImageID := "sha256:5678ef90";
  types.Labels := {[ "com.docker.compose.project"%string := "shop"%string;
                     "com.docker.compose.service"%string := "web"%string ]};
|}.

Definition ex_stats_db : types.StatsJSON := {|
  types.PidsStats := {| types.Current := 11 |};
  types.CPUStats := {| types.CPUUsage := {|
    types.TotalUsage := 9000000000;
    types.UsageInKernelmode := 4000000000;
    types.UsageInUsermode := 5000000000 |} |};
  types.MemoryStats := {|
    types.Usage := 300000000;
    types.Stats := ∅;
    types.Limit := 0 |};
  types.Networks := ∅;
|}.

(** Two containers of one compose service; the sample of a third, listed
    between them, cannot be fetched. *)
Definition ex_docker_two : client.Client := {|
  client.ContainerList := ([ex_web; ex_nameless; ex_db], None);
  client.ContainerStatsOneShot := λ id,
    if String.eqb id "c0ffee01" then client.Decoded (ex_stats 100000000 20000000)
    else if String.eqb id "c0ffee03" then client.Decoded ex_stats_db
    else client.StatsErr "no such container";
|}.

(** The same listing in the opposite order. *)
Definition ex_docker_two_reversed : client.Client := {|
  client.ContainerList := ([ex_db; ex_nameless; ex_web], None);
  client.ContainerStatsOneShot := client.ContainerStatsOneShot ex_docker_two;
|}.

(** Only [ex_db] is left. *)
Definition ex_docker_db_only : client.Client := {|
  client.ContainerList := ([ex_db], None);
  client.ContainerStatsOneShot := λ _, client.Decoded ex_stats_db;
|}.

(** A data directory with two mounts, one of which cannot be statted. *)
Definition ex_fs_two : FileSystem := {|
  ReadDir := λ _, inr [ {| ioutil.Name := "pgdata"; ioutil.IsDir := true |};
                        {| ioutil.Name := "README"; ioutil.IsDir := false |};
                        {| ioutil.Name := "broken"; ioutil.IsDir := true |} ];
  Statfs := λ path, if String.eqb path "/data/pgdata" then inr ex_statfs
                    else inl "input/output error"%string;
|}.

(** A directory name in Latin-1: the last byte, [0xE9], starts a UTF-8
    sequence that the end of the name cuts short. *)
Definition ex_latin1_name : string :=
  "caf" +:+ String (Ascii.ascii_of_N 233) EmptyString.

(** A data directory with a mount of that name next to [pgdata]. *)
Definition ex_fs_latin1 : FileSystem := {|
  ReadDir := λ _, inr [ {| ioutil.Name := "pgdata"; ioutil.IsDir := true |};
                        {| ioutil.Name := ex_latin1_name; ioutil.IsDir := true |} ];
  Statfs := λ _, inr ex_statfs;
|}.

(** A file system whose directories cannot be listed. *)
Definition ex_fs_unreadable : FileSystem := {|
  ReadDir := λ _, inl "permission denied"%string;
  Statfs := λ _, inr ex_statfs;
|}.

(** * Properties of the passes *)

(** ** Strings *)

Section string_facts.

Implicit Types s t p : string.

Lemma HasPrefix_append p t : strings.HasPrefix (p +:+ t) p = true.
Proof.
  induction p as [|a p IH]; simpl; [done|].
  by rewrite Ascii.eqb_refl.
Qed.

Lemma slice_from_append p t : strings.slice_from (String.length p) (p +:+ t) = t.
Proof. induction p as [|a p IH]; simpl; [by destruct t | exact IH]. Qed.

Lemma HasPrefix_split s p :
  strings.HasPrefix s p = true → s = p +:+ strings.slice_from (String.length p) s.
Proof.
  revert s. induction p as [|a p IH]; intros s; simpl.
  - by destruct s.
  - destruct s as [|b s]; [done|].
    destruct (Ascii.eqb a b) eqn:Hab; [|done].
    apply Ascii.eqb_eq in Hab as ->. intros H.
    change (String b s = String b (p +:+ strings.slice_from (String.length p) s)).
    f_equal. by apply IH.
Qed.

(** [TrimPrefix] removes one leading occurrence of the prefix. *)
Lemma TrimPrefix_append p t : strings.TrimPrefix (p +:+ t) p = t.
Proof.
  unfold strings.TrimPrefix. by rewrite HasPrefix_append, slice_from_append.
Qed.

(** The two cases of [TrimPrefix]: the prefix is there and is cut off, or it
    is not there and the string comes back as it is. *)
Lemma TrimPrefix_cases s p :
  (∃ t, s = p +:+ t ∧ strings.TrimPrefix s p = t)
  ∨ ((∀ t, s ≠ p +:+ t) ∧ strings.TrimPrefix s p = s).
Proof.
  unfold strings.TrimPrefix.
  destruct (strings.HasPrefix s p) eqn:Hp.
  - left. eexists. split; [by apply HasPrefix_split | done].
  - right. split; [|done]. intros t ->. by rewrite HasPrefix_append in Hp.
Qed.

Lemma append_inj_l p s t : p +:+ s = p +:+ t → s = t.
Proof. induction p as [|a p IH]; simpl; [done|]. intros [=]. auto. Qed.

Lemma append_inj_length p q s t :
  String.length p = String.length q → p +:+ s = q +:+ t → p = q ∧ s = t.
Proof.
  revert q. induction p as [|a p IH]; intros [|b q]; simpl; try done.
  intros [= Hlen] [= -> Heq]. destruct (IH q Hlen Heq) as [-> ->]. done.
Qed.

End string_facts.

(** ** Label literals *)

Lemma containerLabels_id container name0 :
  containerLabels container name0 !! "container_id"%string = Some (types.ID container).
Proof. done. Qed.

Lemma networkLabels_id container name0 intf :
  networkLabels container name0 intf !! "container_id"%string = Some (types.ID container).
Proof. done. Qed.

Lemma networkLabels_interface container name0 intf :
  networkLabels container name0 intf !! "interface"%string = Some intf.
Proof. done. Qed.

Lemma containerLabels_inj_id c1 n1 c2 n2 :
  containerLabels c1 n1 = containerLabels c2 n2 → types.ID c1 = types.ID c2.
Proof.
  intros H. apply (f_equal (λ m : gmap string string, m !! "container_id"%string)) in H.
  rewrite !containerLabels_id in H. congruence.
Qed.

Lemma networkLabels_inj c1 n1 i1 c2 n2 i2 :
  networkLabels c1 n1 i1 = networkLabels c2 n2 i2 → types.ID c1 = types.ID c2 ∧ i1 = i2.
Proof.
  intros H. split.
  - apply (f_equal (λ m : gmap string string, m !! "container_id"%string)) in H.
    rewrite !networkLabels_id in H. congruence.
  - apply (f_equal (λ m : gmap string string, m !! "interface"%string)) in H.
    rewrite !networkLabels_interface in H. congruence.
Qed.

#[global] Arguments containerLabels : simpl never.
#[global] Arguments networkLabels : simpl never.

Lemma Some_pair_inv {A B} (a a' : A) (b b' : B) :
  Some (a, b) = Some (a', b') → a = a' ∧ b = b'.
Proof. intros [= -> ->]. done. Qed.

(** ** The registry *)

Lemma With_Set_lookup g labels v reg g' L :
  With_Set g labels v reg g' !! L =
    if decide (g' = g ∧ labels = L) then Some v else reg g' !! L.
Proof.
  unfold With_Set. destruct (decide (g' = g)) as [->|Hg].
  - rewrite lookup_insert. repeat case_decide; intuition congruence.
  - rewrite decide_False by (intros [? ?]; done). done.
Qed.

Lemma Delete_lookup g labels reg g' L :
  Delete g labels reg g' !! L =
    if decide (g' = g ∧ labels = L) then None else reg g' !! L.
Proof.
  unfold Delete. destruct (decide (g' = g)) as [->|Hg].
  - rewrite lookup_delete. repeat case_decide; intuition congruence.
  - rewrite decide_False by (intros [? ?]; done). done.
Qed.

Ltac gauge_cases g :=
  cbv zeta; rewrite ?With_Set_lookup, ?Delete_lookup;
  destruct g; cbn [containerValue networkValue dataValue kindOf];
  repeat case_decide; try done; intuition congruence.

Lemma containerValue_kind g stats :
  is_Some (containerValue g stats) ↔ kindOf g = ContainerKind.
Proof. destruct g; cbn; split; (done || by intros [? [=]] || eauto). Qed.

Lemma networkValue_kind g net :
  is_Some (networkValue g net) ↔ kindOf g = NetworkKind.
Proof. destruct g; cbn; split; (done || by intros [? [=]] || eauto). Qed.

Lemma dataValue_kind g fs :
  is_Some (dataValue g fs) ↔ kindOf g = DataKind.
Proof. destruct g; cbn; split; (done || by intros [? [=]] || eauto). Qed.

Lemma setContainerGauges_lookup labels stats reg g L :
  setContainerGauges labels stats reg g !! L =
    match containerValue g stats with
    | Some v => if decide (labels = L) then Some v else reg g !! L
    | None => reg g !! L
    end.
Proof. unfold setContainerGauges. gauge_cases g. Qed.

Lemma setNetworkGauges_lookup labels net reg g L :
  setNetworkGauges labels net reg g !! L =
    match networkValue g net with
    | Some v => if decide (labels = L) then Some v else reg g !! L
    | None => reg g !! L
    end.
Proof. unfold setNetworkGauges. gauge_cases g. Qed.

Lemma setDataGauges_lookup labels fs reg g L :
  setDataGauges labels fs reg g !! L =
    match dataValue g fs with
    | Some v => if decide (labels = L) then Some v else reg g !! L
    | None => reg g !! L
    end.
Proof. unfold setDataGauges. gauge_cases g. Qed.

Lemma deleteGauges_lookup k labels reg g L :
  deleteGauges k labels reg g !! L =
    if decide (kindOf g = k ∧ labels = L) then None else reg g !! L.
Proof.
  destruct k; unfold deleteGauges, deleteContainerGauges, deleteNetworkGauges,
    deleteDataGauges; gauge_cases g.
Qed.

(** ** The container loop as a sequence of writes *)

Lemma networkFold_writes container name0 networks cy :
  map_fold (networkStep container name0) cy networks
  = foldl applyWrite cy (networkWrites container name0 networks).
Proof.
  rewrite map_fold_foldr. unfold networkWrites.
  induction (map_to_list networks) as [|[intf net] l IH]; [done|].
  rewrite reverse_cons, fmap_app, foldl_app. cbn. by rewrite IH.
Qed.

Lemma containerStep_writes docker container cy cy' :
  containerStep docker container cy = Ok cy' →
  cy' = foldl applyWrite cy (stepWrites docker container).
Proof.
  unfold containerStep, stepWrites.
  destruct (client.ContainerStatsOneShot docker (types.ID container)) as [err|err|stats];
    [by intros [= <-] | by intros [= <-] |].
  destruct (types.Names container) as [|name0 rest]; [done|].
  cbn. intros [= <-]. apply networkFold_writes.
Qed.

Lemma forContainers_writes docker containers cy cy' :
  forContainers docker containers cy = Ok cy' →
  cy' = foldl applyWrite cy (passWrites docker containers).
Proof.
  unfold passWrites. revert cy.
  induction containers as [|container rest IH]; intros cy; cbn.
  - by intros [= <-].
  - destruct (containerStep docker container cy) as [cy1|msg] eqn:Hstep; [|done].
    cbn. intros Hrest. rewrite foldl_app.
    apply containerStep_writes in Hstep as <-. by apply IH.
Qed.

(** The loop panics exactly when a sampled container has no name. *)
Lemma containerStep_Ok docker container cy :
  (∀ stats, client.ContainerStatsOneShot docker (types.ID container) = client.Decoded stats →
            types.Names container ≠ []) →
  ∃ cy', containerStep docker container cy = Ok cy'.
Proof.
  unfold containerStep. intros Hnames.
  destruct (client.ContainerStatsOneShot docker (types.ID container)) as [err|err|stats];
    [by eexists | by eexists |].
  destruct (types.Names container) as [|name0 rest]; [by destruct (Hnames stats)|].
  by eexists.
Qed.

Lemma forContainers_Ok docker containers cy :
  (∀ container stats,
     container ∈ containers →
     client.ContainerStatsOneShot docker (types.ID container) = client.Decoded stats →
     types.Names container ≠ []) →
  ∃ cy', forContainers docker containers cy = Ok cy'.
Proof.
  revert cy. induction containers as [|container rest IH]; intros cy Hnames; cbn.
  - by eexists.
  - destruct (containerStep_Ok docker container cy) as [cy1 ->].
    + intros stats. apply Hnames. by left.
    + cbn. apply IH. intros c stats Hc. apply Hnames. by right.
Qed.

Lemma forContainers_named docker containers cy cy' container stats :
  forContainers docker containers cy = Ok cy' →
  container ∈ containers →
  client.ContainerStatsOneShot docker (types.ID container) = client.Decoded stats →
  ∃ name0, head (types.Names container) = Some name0.
Proof.
  revert cy. induction containers as [|c rest IH]; intros cy; cbn; [by intros _ ?%elem_of_nil|].
  destruct (containerStep docker c cy) as [cy1|msg] eqn:Hstep; [|done]. cbn.
  intros Hrest [->|Hin]%elem_of_cons Hstats; [|by eapply IH].
  unfold containerStep in Hstep. rewrite Hstats in Hstep.
  destruct (types.Names c) as [|name0 ?]; [done|]. by exists name0.
Qed.

Lemma elem_of_networkWrites w container name0 networks :
  w ∈ networkWrites container name0 networks ↔
  ∃ intf net, networks !! intf = Some net ∧ w = WNetwork container name0 intf net.
Proof.
  unfold networkWrites. rewrite list_elem_of_fmap. split.
  - intros [[intf net] [-> Hin]]. apply elem_of_reverse, elem_of_map_to_list in Hin.
    by exists intf, net.
  - intros (intf & net & Hnet & ->). exists (intf, net). split; [done|].
    by apply elem_of_reverse, elem_of_map_to_list.
Qed.

Lemma elem_of_stepWrites_container docker c container name0 stats :
  WContainer container name0 stats ∈ stepWrites docker c ↔
  container = c
  ∧ client.ContainerStatsOneShot docker (types.ID c) = client.Decoded stats
  ∧ head (types.Names c) = Some name0.
Proof.
  unfold stepWrites.
  destruct (client.ContainerStatsOneShot docker (types.ID c)) as [err|err|stats'].
  - rewrite list_elem_of_singleton. naive_solver.
  - rewrite list_elem_of_singleton. naive_solver.
  - destruct (types.Names c) as [|n rest]; cbn.
    + rewrite elem_of_nil. naive_solver.
    + rewrite elem_of_cons, elem_of_networkWrites. naive_solver.
Qed.

Lemma elem_of_stepWrites_network docker c container name0 intf net :
  WNetwork container name0 intf net ∈ stepWrites docker c ↔
  container = c
  ∧ head (types.Names c) = Some name0
  ∧ ∃ stats, client.ContainerStatsOneShot docker (types.ID c) = client.Decoded stats
             ∧ types.Networks stats !! intf = Some net.
Proof.
  unfold stepWrites.
  destruct (client.ContainerStatsOneShot docker (types.ID c)) as [err|err|stats'].
  - rewrite list_elem_of_singleton. naive_solver.
  - rewrite list_elem_of_singleton. naive_solver.
  - destruct (types.Names c) as [|n rest]; cbn.
    + rewrite elem_of_nil. naive_solver.
    + rewrite elem_of_cons, elem_of_networkWrites. naive_solver.
Qed.

Lemma elem_of_passWrites_container docker containers container name0 stats :
  WContainer container name0 stats ∈ passWrites docker containers ↔
  container ∈ containers
  ∧ client.ContainerStatsOneShot docker (types.ID container) = client.Decoded stats
  ∧ head (types.Names container) = Some name0.
Proof.
  unfold passWrites. rewrite list_elem_of_bind.
  setoid_rewrite elem_of_stepWrites_container. naive_solver.
Qed.

Lemma elem_of_passWrites_network docker containers container name0 intf net :
  WNetwork container name0 intf net ∈ passWrites docker containers ↔
  container ∈ containers
  ∧ head (types.Names container) = Some name0
  ∧ ∃ stats, client.ContainerStatsOneShot docker (types.ID container) = client.Decoded stats
             ∧ types.Networks stats !! intf = Some net.
Proof.
  unfold passWrites. rewrite list_elem_of_bind.
  setoid_rewrite elem_of_stepWrites_network. naive_solver.
Qed.

(** *** Folding writes into a map

    [proj] selects one of the maps a pass works on and [ins] tells what a
    write stores in it. *)
Section fold_inserts.

Context {K : Type} `{Countable K} {V : Type}.
Variable proj : Cycle → gmap K V.
Variable ins : Write → option (K * V).
Hypothesis proj_apply : ∀ cy w,
  proj (applyWrite cy w) =
    match ins w with
    | Some (k, v) => <[k := v]> (proj cy)
    | None => proj cy
    end.

Lemma fold_snoc cy ws w :
  proj (foldl applyWrite cy (ws ++ [w])) =
    match ins w with
    | Some (k, v) => <[k := v]> (proj (foldl applyWrite cy ws))
    | None => proj (foldl applyWrite cy ws)
    end.
Proof. by rewrite foldl_app, <-proj_apply. Qed.

(** Whatever the map holds at the end was there at the start or was written. *)
Lemma fold_lookup_sound ws cy k v :
  proj (foldl applyWrite cy ws) !! k = Some v →
  proj cy !! k = Some v ∨ ∃ w, w ∈ ws ∧ ins w = Some (k, v).
Proof.
  induction ws as [|w ws IH] using rev_ind; [by left|].
  rewrite fold_snoc. setoid_rewrite elem_of_app. setoid_rewrite list_elem_of_singleton.
  destruct (ins w) as [[k' v']|] eqn:Hw.
  - rewrite lookup_insert. case_decide as Hk.
    + intros [= <-]. subst k'. right. exists w. auto.
    + intros [?|(w' & ? & ?)]%IH; [by left|]. right. exists w'. auto.
  - intros [?|(w' & ? & ?)]%IH; [by left|]. right. exists w'. auto.
Qed.

(** Keys are never removed by a write. *)
Lemma fold_lookup_mono ws cy k :
  is_Some (proj cy !! k) → is_Some (proj (foldl applyWrite cy ws) !! k).
Proof.
  intros Hk. induction ws as [|w ws IH] using rev_ind; [done|].
  rewrite fold_snoc. destruct (ins w) as [[k' v']|]; [|done].
  rewrite lookup_insert. by case_decide.
Qed.

(** A written key is in the map at the end. *)
Lemma fold_lookup_complete ws cy w k v :
  w ∈ ws → ins w = Some (k, v) → is_Some (proj (foldl applyWrite cy ws) !! k).
Proof.
  induction ws as [|w' ws IH] using rev_ind; [by intros ?%elem_of_nil|].
  rewrite fold_snoc. intros [Hin| ->%list_elem_of_singleton]%elem_of_app Hw.
  - destruct (ins w') as [[k' v']|]; [|by apply IH].
    rewrite lookup_insert. case_decide; [done|by apply IH].
  - rewrite Hw, lookup_insert_eq. done.
Qed.

(** When every write to a key stores the same value, the map holds it. *)
Lemma fold_lookup_agree ws cy w k v :
  w ∈ ws → ins w = Some (k, v) →
  (∀ w' v', w' ∈ ws → ins w' = Some (k, v') → v' = v) →
  proj (foldl applyWrite cy ws) !! k = Some v.
Proof.
  induction ws as [|w' ws IH] using rev_ind; [by intros ?%elem_of_nil|].
  rewrite fold_snoc. intros Hin Hw Hagree.
  destruct (ins w') as [[k' v']|] eqn:Hw'.
  - rewrite lookup_insert. case_decide as Hk.
    + subst k'. f_equal. apply (Hagree w'); [|done].
      apply elem_of_app. right. by apply list_elem_of_singleton.
    + apply elem_of_app in Hin as [Hin| ->%list_elem_of_singleton]; [|congruence].
      apply IH; [done..|]. intros w'' v'' ?. apply Hagree. apply elem_of_app. by left.
  - apply elem_of_app in Hin as [Hin| ->%list_elem_of_singleton]; [|congruence].
    apply IH; [done..|]. intros w'' v'' ?. apply Hagree. apply elem_of_app. by left.
Qed.

End fold_inserts.

Lemma applyWrite_ids cy w :
  newKnownContainerIDs (applyWrite cy w) =
    match writeID w with
    | Some (k, v) => <[k := v]> (newKnownContainerIDs cy)
    | None => newKnownContainerIDs cy
    end.
Proof. by destruct w. Qed.

Lemma applyWrite_nets cy w :
  newKnownContainerNetworks (applyWrite cy w) =
    match writeNet w with
    | Some (k, v) => <[k := v]> (newKnownContainerNetworks cy)
    | None => newKnownContainerNetworks cy
    end.
Proof. by destruct w. Qed.

Lemma applyWrite_gauges g cy w :
  gauges (applyWrite cy w) g =
    match writeValue g w with
    | Some (k, v) => <[k := v]> (gauges cy g)
    | None => gauges cy g
    end.
Proof.
  apply map_eq. intros L. destruct w as [msg err|c name0 stats|c name0 intf net]; cbn.
  - done.
  - rewrite setContainerGauges_lookup.
    destruct (containerValue g stats); cbn; [by rewrite lookup_insert|done].
  - rewrite setNetworkGauges_lookup.
    destruct (networkValue g net); cbn; [by rewrite lookup_insert|done].
Qed.

Lemma applyWrite_output_prefix ws cy :
  output cy `prefix_of` output (foldl applyWrite cy ws).
Proof.
  induction ws as [|w ws IH] using rev_ind; [done|].
  rewrite foldl_app. cbn. etrans; [exact IH|].
  destruct w; cbn; [|done..]. unfold log_Print. by apply prefix_app_r.
Qed.

(** ** The removal loops *)

Section removeVanished_facts.

Variable k : Kind.
Variables known new : gmap string prometheus.Labels.
Variable reg : Registry.

Lemma removeVanished_spec g L :
  (kindOf g = k → (∃ id, known !! id = Some L ∧ new !! id = None) →
   removeVanished (deleteGauges k) known new reg g !! L = None)
  ∧ ((kindOf g = k → ∀ id, known !! id = Some L → is_Some (new !! id)) →
     removeVanished (deleteGauges k) known new reg g !! L = reg g !! L).
Proof.
  unfold removeVanished.
  apply (map_fold_weak_ind (λ r (m : gmap string prometheus.Labels),
    (kindOf g = k → (∃ id, m !! id = Some L ∧ new !! id = None) → r g !! L = None)
    ∧ ((kindOf g = k → ∀ id, m !! id = Some L → is_Some (new !! id)) →
       r g !! L = reg g !! L))).
  - split; [|done]. intros _ (id & Hid & _). by rewrite lookup_empty in Hid.
  - intros i x m r Hi [IHgone IHkept].
    assert (∀ id, m !! id = Some L → <[i:=x]> m !! id = Some L) as Hweaken.
    { intros id Hid. rewrite lookup_insert_ne; [done|]. intros ->. congruence. }
    destruct (new !! i) as [Li|] eqn:Hnew.
    + split.
      * intros Hk (id & Hid & Hnone). apply IHgone; [done|]. exists id. split; [|done].
        rewrite lookup_insert_ne in Hid; [done|]. intros ->. congruence.
      * intros Hall. apply IHkept. intros Hk id Hid. apply Hall; auto.
    + rewrite deleteGauges_lookup. case_decide as Hdel.
      * split; [done|]. destruct Hdel as [Hk ->]. intros Hall.
        destruct (Hall Hk i) as [? ?]; [by rewrite lookup_insert_eq|congruence].
      * split.
        -- intros Hk (id & Hid & Hnone). apply IHgone; [done|]. exists id. split; [|done].
           rewrite lookup_insert_ne in Hid; [done|]. intros ->.
           rewrite lookup_insert_eq in Hid. apply Hdel. split; congruence.
        -- intros Hall. apply IHkept. intros Hk id Hid. apply Hall; auto.
Qed.

(** A label set recorded under a key that is not in the new snapshot is
    removed from every gauge of the kind. *)
Lemma removeVanished_removed g L id :
  kindOf g = k → known !! id = Some L → new !! id = None →
  removeVanished (deleteGauges k) known new reg g !! L = None.
Proof. intros Hk Hid Hnew. apply removeVanished_spec; eauto. Qed.

(** Gauges of another kind, and label sets whose keys are all in the new
    snapshot, are left alone. *)
Lemma removeVanished_kept g L :
  (kindOf g = k → ∀ id, known !! id = Some L → is_Some (new !! id)) →
  removeVanished (deleteGauges k) known new reg g !! L = reg g !! L.
Proof. apply removeVanished_spec. Qed.

(** The loop only removes. *)
Lemma removeVanished_Some g L v :
  removeVanished (deleteGauges k) known new reg g !! L = Some v →
  reg g !! L = Some v
  ∧ (kindOf g = k → ∀ id, known !! id = Some L → is_Some (new !! id)).
Proof.
  intros Hlive.
  assert (kindOf g = k → ∀ id, known !! id = Some L → is_Some (new !! id)) as Hkept.
  { intros Hk id Hid. destruct (new !! id) eqn:Hnew; [done|].
    rewrite (removeVanished_removed g L id) in Hlive; done. }
  split; [|done]. by rewrite removeVanished_kept in Hlive.
Qed.

End removeVanished_facts.

(** ** One pass of [updateContainers] *)

Lemma updateContainers_Ok docker st st' :
  updateContainers docker st = Ok st' →
  let cy := endCycle docker st in
  forContainers docker (client.ContainerList docker).1 (startCycle docker st) = Ok cy
  ∧ knownContainerIDs st' = newKnownContainerIDs cy
  ∧ knownContainerNetworks st' = newKnownContainerNetworks cy
  ∧ knownDataNames st' = knownDataNames st
  ∧ logged st' = output cy
  ∧ registry st' =
      removeVanished (deleteGauges NetworkKind)
        (knownContainerNetworks st) (newKnownContainerNetworks cy)
        (removeVanished (deleteGauges ContainerKind)
           (knownContainerIDs st) (newKnownContainerIDs cy) (gauges cy)).
Proof.
  unfold updateContainers, endCycle, startCycle.
  destruct (client.ContainerList docker) as [containers err]. cbn.
  match goal with |- context [forContainers docker containers ?c] => set (cy0 := c) end.
  destruct (forContainers docker containers cy0) as [cy1|msg] eqn:Hloop; [|done].
  cbn. intros [= <-]. apply forContainers_writes in Hloop as Heq. subst cy1. done.
Qed.

(** A pass completes unless a sampled container has an empty [Names]. *)
Lemma updateContainers_total docker st :
  (∀ container stats,
     container ∈ (client.ContainerList docker).1 →
     client.ContainerStatsOneShot docker (types.ID container) = client.Decoded stats →
     types.Names container ≠ []) →
  ∃ st', updateContainers docker st = Ok st'.
Proof.
  intros Hnames. unfold updateContainers.
  destruct (client.ContainerList docker) as [containers err]. cbn in Hnames.
  match goal with |- context [forContainers docker containers ?c] => set (cy0 := c) end.
  destruct (forContainers_Ok docker containers cy0 Hnames) as [cy1 ->]. by eexists.
Qed.

Lemma startCycle_ids docker st : newKnownContainerIDs (startCycle docker st) = ∅.
Proof. unfold startCycle. by destruct (client.ContainerList docker).2. Qed.

Lemma startCycle_nets docker st : newKnownContainerNetworks (startCycle docker st) = ∅.
Proof. unfold startCycle. by destruct (client.ContainerList docker).2. Qed.

Lemma startCycle_gauges docker st : gauges (startCycle docker st) = registry st.
Proof. unfold startCycle. by destruct (client.ContainerList docker).2. Qed.

Section pass_facts.

Variable docker : client.Client.
Variables st st' : State.
Hypothesis Hpass : updateContainers docker st = Ok st'.

(** Every entry of the new container snapshot comes from a sampled container. *)
Lemma new_ids_sound id L :
  knownContainerIDs st' !! id = Some L →
  ∃ container name0 stats,
    sampled docker container name0 stats
    ∧ types.ID container = id ∧ L = containerLabels container name0.
Proof.
  destruct (updateContainers_Ok _ _ _ Hpass) as (_ & -> & _).
  intros Hid. unfold endCycle in Hid.
  apply (fold_lookup_sound _ _ applyWrite_ids) in Hid as [Hid|(w & Hw & Hins)].
  - by rewrite startCycle_ids, lookup_empty in Hid.
  - destruct w as [| container name0 stats |]; try done. cbn in Hins.
    apply Some_pair_inv in Hins as [<- <-]. apply elem_of_passWrites_container in Hw.
    by exists container, name0, stats.
Qed.

(** Every sampled container is in the new container snapshot. *)
Lemma new_ids_complete container name0 stats :
  sampled docker container name0 stats →
  is_Some (knownContainerIDs st' !! types.ID container).
Proof.
  destruct (updateContainers_Ok _ _ _ Hpass) as (_ & -> & _).
  intros Hs. apply elem_of_passWrites_container in Hs.
  by eapply (fold_lookup_complete _ _ applyWrite_ids).
Qed.

(** Every entry of the new network snapshot comes from an interface of a
    sampled container. *)
Lemma new_nets_sound key L :
  knownContainerNetworks st' !! key = Some L →
  ∃ container name0 stats intf,
    sampled docker container name0 stats
    ∧ is_Some (types.Networks stats !! intf)
    ∧ networkKey (types.ID container) intf = key
    ∧ L = networkLabels container name0 intf.
Proof.
  destruct (updateContainers_Ok _ _ _ Hpass) as (_ & _ & -> & _).
  intros Hk. unfold endCycle in Hk.
  apply (fold_lookup_sound _ _ applyWrite_nets) in Hk as [Hk|(w & Hw & Hins)].
  - by rewrite startCycle_nets, lookup_empty in Hk.
  - destruct w as [| | container name0 intf net]; try done. cbn in Hins.
    apply Some_pair_inv in Hins as [<- <-].
    apply elem_of_passWrites_network in Hw as (? & ? & stats & ? & ?).
    exists container, name0, stats, intf. by repeat split.
Qed.

(** Every interface of a sampled container is in the new network snapshot. *)
Lemma new_nets_complete container name0 stats intf :
  sampled docker container name0 stats →
  is_Some (types.Networks stats !! intf) →
  is_Some (knownContainerNetworks st' !! networkKey (types.ID container) intf).
Proof.
  destruct (updateContainers_Ok _ _ _ Hpass) as (_ & _ & -> & _).
  intros (Hin & Hstats & Hname) [net Hnet].
  eapply (fold_lookup_complete _ _ applyWrite_nets
            _ _ (WNetwork container name0 intf net)); [|done].
  apply elem_of_passWrites_network. eauto 6.
Qed.

(** A series that is live after the pass was live before it or was set in
    it, and the removal loops left it alone. *)
Lemma registry_sound g L v :
  registry st' g !! L = Some v →
  (registry st g !! L = Some v
   ∨ ∃ w, w ∈ passWrites docker (client.ContainerList docker).1
          ∧ writeValue g w = Some (L, v))
  ∧ (kindOf g = ContainerKind →
     ∀ id, knownContainerIDs st !! id = Some L → is_Some (knownContainerIDs st' !! id))
  ∧ (kindOf g = NetworkKind →
     ∀ key, knownContainerNetworks st !! key = Some L →
            is_Some (knownContainerNetworks st' !! key)).
Proof.
  destruct (updateContainers_Ok _ _ _ Hpass) as (_ & -> & -> & _ & _ & ->).
  intros [[Hlive Hids]%removeVanished_Some Hnets]%removeVanished_Some.
  repeat split; [|done..].
  unfold endCycle in Hlive.
  apply (fold_lookup_sound _ _ (applyWrite_gauges g)) in Hlive as [Hlive|?]; [|by right].
  left. by rewrite startCycle_gauges in Hlive.
Qed.

(** A label set recorded in the previous container snapshot under a key that
    is not in the new one is gone from every container-level gauge. *)
Lemma registry_container_removed g L id :
  kindOf g = ContainerKind →
  knownContainerIDs st !! id = Some L →
  knownContainerIDs st' !! id = None →
  registry st' g !! L = None.
Proof.
  destruct (updateContainers_Ok _ _ _ Hpass) as (_ & Hids & _ & _ & _ & ->).
  intros Hg Hid Hnew. rewrite Hids in Hnew.
  rewrite removeVanished_kept; [|by rewrite Hg].
  by eapply removeVanished_removed.
Qed.

(** The same for the network snapshot and the network-level gauges. *)
Lemma registry_network_removed g L key :
  kindOf g = NetworkKind →
  knownContainerNetworks st !! key = Some L →
  knownContainerNetworks st' !! key = None →
  registry st' g !! L = None.
Proof.
  destruct (updateContainers_Ok _ _ _ Hpass) as (_ & _ & Hnets & _ & _ & ->).
  intros Hg Hk Hnew. rewrite Hnets in Hnew. by eapply removeVanished_removed.
Qed.

(** The filesystem gauges are not touched. *)
Lemma registry_data_unchanged g L :
  kindOf g = DataKind → registry st' g !! L = registry st g !! L.
Proof.
  destruct (updateContainers_Ok _ _ _ Hpass) as (_ & _ & _ & _ & _ & ->).
  intros Hg. rewrite !removeVanished_kept by (by rewrite Hg).
  unfold endCycle. rewrite <-startCycle_gauges with (docker := docker).
  generalize (startCycle docker st).
  induction (passWrites docker (client.ContainerList docker).1) as [|w ws IH] using rev_ind;
    intros cy; [done|].
  rewrite (fold_snoc _ _ (applyWrite_gauges g)).
  destruct (writeValue g w) as [[L' v']|] eqn:Hw; [|by apply IH].
  destruct w as [| c n s | c n i net]; cbn in Hw; [done| |].
  - destruct (containerValue g s) eqn:Hv; [|done].
    assert (kindOf g = ContainerKind) by (by apply (containerValue_kind g s)). congruence.
  - destruct (networkValue g net) eqn:Hv; [|done].
    assert (kindOf g = NetworkKind) by (by apply (networkValue_kind g net)). congruence.
Qed.

End pass_facts.

(** ** The snapshots are keyed by identity *)

Lemma snapshot_keyed_setup : snapshot_keyed setup.
Proof. split; intros ? ?; cbn; by rewrite lookup_empty. Qed.

Lemma snapshot_keyed_updateContainers docker st st' :
  updateContainers docker st = Ok st' → snapshot_keyed st'.
Proof.
  intros Hpass. split.
  - intros id L (c & name0 & stats & _ & <- & ->)%(new_ids_sound _ _ _ Hpass).
    apply containerLabels_id.
  - intros key L (c & name0 & stats & intf & _ & _ & <- & ->)%(new_nets_sound _ _ _ Hpass).
    exists (types.ID c), intf.
    by rewrite networkLabels_id, networkLabels_interface.
Qed.

(** ** The filesystem pass and its panic *)

Lemma With_data_name path :
  With {[ "data_name"%string := path ]}
  = if utf8.ValidString path then Ok tt else Panic "label value is not valid UTF-8".
Proof.
  unfold With. destruct (utf8.ValidString path) eqn:Hvalid.
  - rewrite bool_decide_eq_true_2; [done|]. by apply map_Forall_singleton.
  - rewrite bool_decide_eq_false_2; [done|].
    intros Hall%map_Forall_singleton. congruence.
Qed.

Lemma pathStep_cases os basepath path acc :
  pathStep os basepath path acc
  = if withPanics os basepath path then Panic "label value is not valid UTF-8"
    else Ok (pathStepEffect os basepath path acc).
Proof.
  destruct acc as [reg out]. unfold pathStep, pathStepEffect, withPanics.
  destruct (Statfs os _) as [err|fs]; [done|].
  rewrite With_data_name. by destruct (utf8.ValidString path).
Qed.

(** The loop completes exactly when it meets no path at which [With]
    panics, and then it has done what the steps do one after the other. *)
Lemma forPaths_total os basepath paths acc :
  (∀ path, path ∈ paths → withPanics os basepath path = false) →
  forPaths os basepath paths acc
  = Ok (foldl (λ acc path, pathStepEffect os basepath path acc) acc paths).
Proof.
  revert acc. induction paths as [|path paths IH]; intros acc Hvalid; [done|].
  cbn. rewrite pathStep_cases, Hvalid by apply list_elem_of_here. cbn.
  apply IH. intros path' Hin. apply Hvalid. by apply list_elem_of_further.
Qed.

Lemma forPaths_panics os basepath paths acc path :
  path ∈ paths → withPanics os basepath path = true →
  ∃ msg, forPaths os basepath paths acc = Panic msg.
Proof.
  revert acc. induction paths as [|path' paths IH]; intros acc Hin Hbad.
  - by apply elem_of_nil in Hin.
  - cbn. rewrite pathStep_cases.
    destruct (withPanics os basepath path') eqn:Hhead; [by eexists|]. cbn.
    apply elem_of_cons in Hin as [->|Hin]; [congruence|]. by apply IH.
Qed.

Lemma forPaths_Ok os basepath paths acc acc' :
  forPaths os basepath paths acc = Ok acc' →
  (∀ path, path ∈ paths → withPanics os basepath path = false)
  ∧ acc' = foldl (λ acc path, pathStepEffect os basepath path acc) acc paths.
Proof.
  intros Hloop.
  assert (∀ path, path ∈ paths → withPanics os basepath path = false) as Hvalid.
  { intros path Hin. destruct (withPanics os basepath path) eqn:Hbad; [|done].
    destruct (forPaths_panics os basepath paths acc path Hin Hbad) as [msg Hpanic].
    congruence. }
  split; [done|]. rewrite forPaths_total in Hloop by done. congruence.
Qed.

(** A pass that completes leaves what [updateDatasEffect] describes. *)
Lemma updateDatas_Ok os basepath st st' :
  updateDatas os basepath st = Ok st' → st' = updateDatasEffect os basepath st.
Proof.
  unfold updateDatas, updateDatasEffect.
  destruct (dataPaths os basepath) as [err|paths]; [congruence|].
  destruct (forPaths os basepath paths (registry st, logged st)) as [acc|msg] eqn:Hloop;
    [|done].
  apply forPaths_Ok in Hloop as [_ ->]. cbn.
  destruct (foldl _ _ paths) as [reg out]. congruence.
Qed.

(** It completes when the enumeration fails, and when no path makes [With]
    panic. *)
Lemma updateDatas_unreadable os basepath st err :
  dataPaths os basepath = inl err →
  updateDatas os basepath st = Ok (updateDatasEffect os basepath st).
Proof. intros Hpaths. unfold updateDatas, updateDatasEffect. by rewrite Hpaths. Qed.

Lemma updateDatas_total os basepath st paths :
  dataPaths os basepath = inr paths →
  (∀ path, path ∈ paths → withPanics os basepath path = false) →
  updateDatas os basepath st = Ok (updateDatasEffect os basepath st).
Proof.
  intros Hpaths Hvalid. unfold updateDatas, updateDatasEffect. rewrite Hpaths.
  rewrite forPaths_total by done. cbn. by destruct (foldl _ _ paths) as [reg out].
Qed.

Lemma updateDatas_panics os basepath st paths path :
  dataPaths os basepath = inr paths →
  path ∈ paths → withPanics os basepath path = true →
  ∃ msg, updateDatas os basepath st = Panic msg.
Proof.
  intros Hpaths Hin Hbad. unfold updateDatas. rewrite Hpaths.
  destruct (forPaths_panics os basepath paths (registry st, logged st) path Hin Hbad)
    as [msg ->].
  by exists msg.
Qed.

Lemma afterDatas_Ok os basepath st st' :
  updateDatas os basepath st = Ok st' → afterDatas os basepath st = st'.
Proof. intros Hpass. unfold afterDatas. by rewrite Hpass. Qed.

Lemma snapshot_keyed_updateDatasEffect os basepath st :
  snapshot_keyed st → snapshot_keyed (updateDatasEffect os basepath st).
Proof.
  unfold updateDatasEffect. destruct (dataPaths os basepath) as [err|paths]; [done|].
  by destruct (foldl _ _ paths).
Qed.

Section sampled_values.

Variable docker : client.Client.
Variables st st' : State.
Hypothesis Hkeyed : snapshot_keyed st.
Hypothesis Hpass : updateContainers docker st = Ok st'.

(** After a pass, each container-level gauge holds, at the label set of a
    sampled container, the value computed from that container's sample. *)
Lemma sampled_container_value container name0 stats g v :
  sampled docker container name0 stats →
  containerValue g stats = Some v →
  registry st' g !! containerLabels container name0 = Some v.
Proof.
  intros Hs Hv.
  assert (kindOf g = ContainerKind) as Hg by (by apply (containerValue_kind g stats)).
  pose proof (new_ids_complete _ _ _ Hpass _ _ _ Hs) as Hnew.
  destruct (updateContainers_Ok _ _ _ Hpass) as (_ & Hids & _ & _ & _ & ->).
  rewrite Hids in Hnew.
  rewrite removeVanished_kept by (by rewrite Hg).
  rewrite removeVanished_kept.
  2:{ intros _ id Hid. apply Hkeyed in Hid. rewrite containerLabels_id in Hid.
      by injection Hid as <-. }
  unfold endCycle.
  apply (fold_lookup_agree _ _ (applyWrite_gauges g) _ _ (WContainer container name0 stats)).
  - by apply elem_of_passWrites_container.
  - cbn. by rewrite Hv.
  - intros w v' Hw Hins. destruct w as [| c n s | c n i net]; cbn in Hins; [done| |].
    + destruct (containerValue g s) as [v''|] eqn:Hv''; [|done]. cbn in Hins.
      apply Some_pair_inv in Hins as [Hlab ->]. apply containerLabels_inj_id in Hlab.
      apply elem_of_passWrites_container in Hw as (_ & Hstats & _).
      destruct Hs as (_ & Hstats' & _). rewrite Hlab, Hstats' in Hstats.
      injection Hstats as ->. congruence.
    + destruct (networkValue g net) eqn:Hn; [|done].
      assert (kindOf g = NetworkKind) by (by apply (networkValue_kind g net)). congruence.
Qed.

(** The same for the network-level gauges and each interface of a sampled
    container. *)
Lemma sampled_network_value container name0 stats intf net g v :
  sampled docker container name0 stats →
  types.Networks stats !! intf = Some net →
  networkValue g net = Some v →
  registry st' g !! networkLabels container name0 intf = Some v.
Proof.
  intros Hs Hnet Hv.
  assert (kindOf g = NetworkKind) as Hg by (by apply (networkValue_kind g net)).
  pose proof (new_nets_complete _ _ _ Hpass _ _ _ intf Hs (ltac:(by eexists))) as Hnew.
  destruct (updateContainers_Ok _ _ _ Hpass) as (_ & _ & Hnets & _ & _ & ->).
  rewrite Hnets in Hnew.
  rewrite removeVanished_kept.
  2:{ intros _ key Hkey. apply Hkeyed in Hkey as (id & intf' & Hid & Hintf & ->).
      rewrite networkLabels_id in Hid. rewrite networkLabels_interface in Hintf.
      by injection Hid as <-; injection Hintf as <-. }
  rewrite removeVanished_kept by (by rewrite Hg).
  unfold endCycle.
  apply (fold_lookup_agree _ _ (applyWrite_gauges g) _ _
           (WNetwork container name0 intf net)).
  - apply elem_of_passWrites_network. destruct Hs as (? & ? & ?). eauto 6.
  - cbn. by rewrite Hv.
  - intros w v' Hw Hins. destruct w as [| c n s | c n i net']; cbn in Hins; [done| |].
    + destruct (containerValue g s) eqn:Hc; [|done].
      assert (kindOf g = ContainerKind) by (by apply (containerValue_kind g s)). congruence.
    + destruct (networkValue g net') as [v''|] eqn:Hv''; [|done]. cbn in Hins.
      apply Some_pair_inv in Hins as [Hlab ->]. apply networkLabels_inj in Hlab as [Hid ->].
      apply elem_of_passWrites_network in Hw as (_ & _ & s' & Hstats & Hnet').
      destruct Hs as (_ & Hstats' & _). rewrite Hid, Hstats' in Hstats.
      injection Hstats as <-. congruence.
Qed.

End sampled_values.

Lemma ex_web_sampled usage cache :
  sampled (ex_docker usage cache) ex_web "/web-1" (ex_stats usage cache).
Proof. repeat split. by apply list_elem_of_singleton. Qed.

(** * Label normalisation *)

(** C6: label normalisation cuts one leading ["/"] off the container's first
    name and the ["sha256:"] prefix off the image ID, and leaves a string
    without the prefix as it is; ["/web-1"] becomes ["web-1"] and
    ["sha256:abcd1234"] becomes ["abcd1234"]. *)
Theorem label_prefix_stripping :
  (∀ container name0,
     containerLabels container name0 !! "container_name"%string
       = Some (strings.TrimPrefix name0 "/")
     ∧ containerLabels container name0 !! "container_image_id"%string
       = Some (strings.TrimPrefix (types.ImageID container) "sha256:"))
  ∧ (∀ s p, (∃ t, s = p +:+ t ∧ strings.TrimPrefix s p = t)
            ∨ ((∀ t, s ≠ p +:+ t) ∧ strings.TrimPrefix s p = s))
  ∧ (∀ s, strings.TrimPrefix ("/" +:+ s) "/" = s)
  ∧ (∀ s, strings.TrimPrefix ("sha256:" +:+ s) "sha256:" = s)
  ∧ strings.TrimPrefix "/web-1" "/" = "web-1"%string
  ∧ strings.TrimPrefix "//web-1" "/" = "/web-1"%string
  ∧ strings.TrimPrefix "web-1" "/" = "web-1"%string
  ∧ strings.TrimPrefix "sha256:abcd1234" "sha256:" = "abcd1234"%string
  ∧ strings.TrimPrefix "abcd1234" "sha256:" = "abcd1234"%string
  ∧ buildLabels ex_web = Ok (containerLabels ex_web "/web-1")
  ∧ containerLabels ex_web "/web-1" !! "container_name"%string = Some "web-1"%string
  ∧ containerLabels ex_web "/web-1" !! "container_image_id"%string = Some "abcd1234"%string.
Proof.
  split; [by intros; split|].
  split; [apply TrimPrefix_cases|].
  split; [intros s; apply TrimPrefix_append|].
  split; [intros s; apply TrimPrefix_append|].
  repeat split.
Qed.

(** C9, as stated, fails: a descriptor with its container ID present and an
    empty names list makes label construction panic, and the pass with it. *)
Lemma buildLabels_nameless_panics :
  types.ID ex_nameless ≠ ""%string
  ∧ buildLabels ex_nameless = Panic "index out of range [0] with length 0"
  ∧ updateContainers ex_docker_nameless setup = Panic "index out of range [0] with length 0".
Proof. split; [done|]. split; reflexivity. Qed.

(** C9, amended: label construction is a function of the descriptor whose
    one failure mode is an empty names list, where it panics, and with it the
    loop iteration of a sampled container; with a first name present it
    yields the label set whatever the other fields hold (the container ID
    included), the iteration goes through, and a compose label that is absent
    gives the empty string. *)
Theorem buildLabels_cases container :
  match types.Names container with
  | [] =>
      buildLabels container = Panic "index out of range [0] with length 0"
      ∧ (∀ docker cy stats,
           client.ContainerStatsOneShot docker (types.ID container) = client.Decoded stats →
           containerStep docker container cy = Panic "index out of range [0] with length 0")
  | name0 :: _ =>
      buildLabels container = Ok (containerLabels container name0)
      ∧ (∀ docker cy, ∃ cy', containerStep docker container cy = Ok cy')
      ∧ containerLabels container name0 !! "container_id"%string = Some (types.ID container)
      ∧ containerLabels container name0 !! "compose_project"%string
        = Some (default ""%string (types.Labels container !! "com.docker.compose.project"%string))
      ∧ containerLabels container name0 !! "compose_service"%string
        = Some (default ""%string (types.Labels container !! "com.docker.compose.service"%string))
      ∧ containerLabels container name0 !! "container_image_name"%string
        = Some (types.Image container)
  end.
Proof.
  unfold buildLabels. destruct (types.Names container) as [|name0 rest] eqn:Hnames.
  - split; [done|]. intros docker cy stats Hstats.
    unfold containerStep. by rewrite Hstats, Hnames.
  - split; [done|]. split; [|done].
    intros docker cy. apply containerStep_Ok. intros _ _. by rewrite Hnames.
Qed.

(** * Identity keys *)




(** * Exposed values *)

(** C7: for every container whose sample is fetched, the user-mode,
    kernel-mode and total CPU counters, in nanoseconds, are exposed divided
    by 10^9; 2_500_000_000 nanoseconds are exposed as 2.5. *)
Theorem cpu_counters_in_seconds docker st st' container name0 stats :
  snapshot_keyed st →
  updateContainers docker st = Ok st' →
  sampled docker container name0 stats →
  let cpu := types.CPUUsage (types.CPUStats stats) in
  let labels := containerLabels container name0 in
  registry st' cpuUsageUser !! labels
    = Some (float64 (types.UsageInUsermode cpu) / 1e9)%float
  ∧ registry st' cpuUsageKernel !! labels
    = Some (float64 (types.UsageInKernelmode cpu) / 1e9)%float
  ∧ registry st' cpuUsageTotal !! labels
    = Some (float64 (types.TotalUsage cpu) / 1e9)%float
  ∧ (float64 2500000000 / 1e9)%float = 2.5%float.
Proof.
  intros Hkeyed Hpass Hs cpu labels.
  repeat split; try by eapply sampled_container_value.
Qed.

Lemma cpu_counters_in_seconds_witness :
  let st' := after (ex_docker 100000000 20000000) setup in
  let labels := containerLabels ex_web "/web-1" in
  registry st' cpuUsageUser !! labels = Some 2.5%float
  ∧ registry st' cpuUsageKernel !! labels = Some 1%float
  ∧ registry st' cpuUsageTotal !! labels = Some 3.5%float
  ∧ (float64 2500000000 / 1e9)%float = 2.5%float.
Proof.
  exact (cpu_counters_in_seconds (ex_docker 100000000 20000000) setup _ ex_web "/web-1" _
           snapshot_keyed_setup eq_refl (ex_web_sampled _ _)).
Defined.





(** * Entities that are not sampled lose their series *)

Section unsampled.

Variable docker : client.Client.
Variables st st' : State.
Hypothesis Hpass : updateContainers docker st = Ok st'.

Lemma unsampled_container_removed id L g :
  knownContainerIDs st !! id = Some L →
  (∀ container name0 stats, sampled docker container name0 stats → types.ID container ≠ id) →
  kindOf g = ContainerKind →
  knownContainerIDs st' !! id = None ∧ registry st' g !! L = None.
Proof.
  intros Hid Hnot Hg.
  assert (knownContainerIDs st' !! id = None) as Hnew.
  { destruct (knownContainerIDs st' !! id) as [L'|] eqn:Hnew; [|done].
    apply (new_ids_sound _ _ _ Hpass) in Hnew as (c & name0 & stats & Hs & Hc & _).
    by destruct (Hnot c name0 stats Hs). }
  split; [done|]. by eapply registry_container_removed.
Qed.

Lemma unsampled_network_removed key L g :
  knownContainerNetworks st !! key = Some L →
  (∀ container name0 stats intf,
     sampled docker container name0 stats →
     is_Some (types.Networks stats !! intf) →
     networkKey (types.ID container) intf ≠ key) →
  kindOf g = NetworkKind →
  knownContainerNetworks st' !! key = None ∧ registry st' g !! L = None.
Proof.
  intros Hkey Hnot Hg.
  assert (knownContainerNetworks st' !! key = None) as Hnew.
  { destruct (knownContainerNetworks st' !! key) as [L'|] eqn:Hnew; [|done].
    apply (new_nets_sound _ _ _ Hpass) in Hnew
      as (c & name0 & stats & intf & Hs & Hintf & Hc & _).
    by destruct (Hnot c name0 stats intf Hs Hintf). }
  split; [done|]. by eapply registry_network_removed.
Qed.

End unsampled.

(** C4, as stated, fails: lines 167-171 log the error of the listing call and
    go on to loop over the descriptors the call handed back with it. In the
    second pass here the call fails and hands back [ex_web]: the failure is
    logged, [ex_web] is sampled and recorded, and its series stay in the
    registry, with the values of this pass. With a descriptor without a name
    handed back as well, the pass panics. *)
Lemma list_failure_keeps_series :
  let st1 := after (ex_docker 100000000 20000000) setup in
  let st2 := after ex_docker_partial st1 in
  let labels := containerLabels ex_web "/web-1" in
  client.ContainerList ex_docker_partial = ([ex_web], Some "unexpected EOF"%string)
  ∧ updateContainers (ex_docker 100000000 20000000) setup = Ok st1
  ∧ updateContainers ex_docker_partial st1 = Ok st2
  ∧ logged st2 = logged st1 ++ ["Failed to get container list: unexpected EOF"%string]
  ∧ knownContainerIDs st1 !! "c0ffee01"%string = Some labels
  ∧ knownContainerIDs st2 !! "c0ffee01"%string = Some labels
  ∧ registry st1 pids !! labels = Some 3%float
  ∧ registry st2 pids !! labels = Some 3%float
  ∧ registry st1 memoryUsage !! labels = Some 80000000%float
  ∧ registry st2 memoryUsage !! labels = Some 120000000%float
  ∧ registry st2 networkReceiveBytes !! networkLabels ex_web "/web-1" "eth0" = Some 1024%float
  ∧ (client.ContainerList ex_docker_partial_nameless).2 = Some "unexpected EOF"%string
  ∧ updateContainers ex_docker_partial_nameless st1
    = Panic "index out of range [0] with length 0".
Proof.
  cbv zeta. split; [reflexivity|]. split; [reflexivity|]. split; [reflexivity|].
  repeat split; by vm_compute.
Qed.

(** C4, amended: when the listing call fails and hands back no descriptor
    with its error, as it does when the request itself fails, the pass
    completes without a panic, logs the failure, observes no container, and
    every container-level and network-level series recorded in the previous
    snapshot is removed from the registry. *)
Theorem list_failure_removes_all docker st err :
  client.ContainerList docker = ([], Some err) →
  ∃ st', updateContainers docker st = Ok st'
    ∧ logged st' = logged st ++ ["Failed to get container list: " +:+ err]
    ∧ knownContainerIDs st' = ∅
    ∧ knownContainerNetworks st' = ∅
    ∧ (∀ g id L, kindOf g = ContainerKind →
         knownContainerIDs st !! id = Some L → registry st' g !! L = None)
    ∧ (∀ g key L, kindOf g = NetworkKind →
         knownContainerNetworks st !! key = Some L → registry st' g !! L = None).
Proof.
  intros Hlist.
  assert (∀ container name0 stats, ¬ sampled docker container name0 stats) as Hnone.
  { intros c name0 stats [Hin _]. rewrite Hlist in Hin. by apply elem_of_nil in Hin. }
  destruct (updateContainers_total docker st) as [st' Hpass].
  { intros c stats Hin. rewrite Hlist in Hin. by apply elem_of_nil in Hin. }
  exists st'. split; [done|].
  destruct (updateContainers_Ok _ _ _ Hpass) as (_ & Hids & Hnets & _ & Hlog & _).
  unfold endCycle, startCycle in Hids, Hnets, Hlog. rewrite Hlist in Hids, Hnets, Hlog.
  repeat split; try done.
  - intros g id L Hg Hid. eapply unsampled_container_removed; [done..| |done].
    intros c name0 stats Hs. by destruct (Hnone c name0 stats).
  - intros g key L Hg Hkey. eapply unsampled_network_removed; [done..| |done].
    intros c name0 stats intf Hs. by destruct (Hnone c name0 stats).
Qed.

Lemma list_failure_removes_all_witness :
  let st := after (ex_docker 100000000 20000000) setup in
  ∃ st', updateContainers ex_docker_down st = Ok st'
    ∧ logged st' = logged st ++ ["Failed to get container list: connection refused"%string]
    ∧ knownContainerIDs st' = ∅
    ∧ knownContainerNetworks st' = ∅
    ∧ (∀ g id L, kindOf g = ContainerKind →
         knownContainerIDs st !! id = Some L → registry st' g !! L = None)
    ∧ (∀ g key L, kindOf g = NetworkKind →
         knownContainerNetworks st !! key = Some L → registry st' g !! L = None).
Proof.
  exact (list_failure_removes_all ex_docker_down
           (after (ex_docker 100000000 20000000) setup) _ eq_refl).
Defined.

(** C2, as stated, fails: [ex_web] is listed in two passes, sampled in the
    first and not in the second; the series set by the first pass are gone
    after the second. *)
Lemma fetch_failure_drops_series :
  let st1 := after (ex_docker 100000000 20000000) setup in
  let st2 := after ex_docker_failing st1 in
  let labels := containerLabels ex_web "/web-1" in
  updateContainers (ex_docker 100000000 20000000) setup = Ok st1
  ∧ updateContainers ex_docker_failing st1 = Ok st2
  ∧ ex_web ∈ (client.ContainerList (ex_docker 100000000 20000000)).1
  ∧ ex_web ∈ (client.ContainerList ex_docker_failing).1
  ∧ registry st1 pids !! labels = Some 3%float
  ∧ registry st1 memoryUsage !! labels = Some 80000000%float
  ∧ registry st2 pids !! labels = None
  ∧ registry st2 memoryUsage !! labels = None
  ∧ registry st1 networkReceiveBytes !! networkLabels ex_web "/web-1" "eth0" = Some 1024%float
  ∧ registry st2 networkReceiveBytes !! networkLabels ex_web "/web-1" "eth0" = None.
Proof.
  cbv zeta. split; [reflexivity|]. split; [reflexivity|].
  split; [by apply list_elem_of_singleton|]. split; [by apply list_elem_of_singleton|].
  repeat split; by vm_compute.
Qed.

(** C2, amended: a container that is listed in a pass but whose sample is not
    fetched or not decoded is left out of the new snapshot, and when the pass
    completes the series recorded for it in the previous pass are removed:
    the container-level ones always, the network-level ones when the listed
    IDs all have the length of its own. *)
Theorem fetch_failure_removes_series docker st st' container L :
  snapshot_keyed st →
  updateContainers docker st = Ok st' →
  container ∈ (client.ContainerList docker).1 →
  (∀ stats, client.ContainerStatsOneShot docker (types.ID container) ≠ client.Decoded stats) →
  knownContainerIDs st !! types.ID container = Some L →
  knownContainerIDs st' !! types.ID container = None
  ∧ (∀ g, kindOf g = ContainerKind → registry st' g !! L = None)
  ∧ ((∀ c, c ∈ (client.ContainerList docker).1 →
           String.length (types.ID c) = String.length (types.ID container)) →
     ∀ g key Ln,
       kindOf g = NetworkKind →
       knownContainerNetworks st !! key = Some Ln →
       Ln !! "container_id"%string = Some (types.ID container) →
       knownContainerNetworks st' !! key = None ∧ registry st' g !! Ln = None).
Proof.
  intros Hkeyed Hpass Hin Hfail Hid.
  assert (∀ c name0 stats, sampled docker c name0 stats → types.ID c ≠ types.ID container)
    as Hnot.
  { intros c name0 stats (_ & Hstats & _) Heq. rewrite Heq in Hstats.
    by destruct (Hfail stats). }
  split; [|split].
  - by eapply (unsampled_container_removed _ _ _ Hpass _ _ pids).
  - intros g Hg. by eapply unsampled_container_removed.
  - intros Hlen g key Ln Hg Hkey Hcid.
    eapply unsampled_network_removed; [done..| |done].
    intros c name0 stats intf Hs _ Heq.
    apply Hkeyed in Hkey as (id' & intf' & Hid' & _ & ->).
    rewrite Hcid in Hid'. injection Hid' as <-.
    apply append_inj_length in Heq as [Heq _]; [by eapply Hnot|].
    apply Hlen. by destruct Hs.
Qed.

Lemma fetch_failure_removes_series_witness :
  let st1 := after (ex_docker 100000000 20000000) setup in
  let st2 := after ex_docker_failing st1 in
  let L := containerLabels ex_web "/web-1" in
  knownContainerIDs st2 !! types.ID ex_web = None
  ∧ (∀ g, kindOf g = ContainerKind → registry st2 g !! L = None)
  ∧ ((∀ c, c ∈ (client.ContainerList ex_docker_failing).1 →
           String.length (types.ID c) = String.length (types.ID ex_web)) →
     ∀ g key Ln,
       kindOf g = NetworkKind →
       knownContainerNetworks st1 !! key = Some Ln →
       Ln !! "container_id"%string = Some (types.ID ex_web) →
       knownContainerNetworks st2 !! key = None ∧ registry st2 g !! Ln = None).
Proof.
  apply (fetch_failure_removes_series ex_docker_failing
           (after (ex_docker 100000000 20000000) setup) _ ex_web).
  - apply (snapshot_keyed_updateContainers (ex_docker 100000000 20000000) setup). reflexivity.
  - reflexivity.
  - by apply list_elem_of_singleton.
  - intros stats. discriminate.
  - reflexivity.
Defined.

(** * Filesystem mounts: one pass of [updateDatas] *)

Lemma removeVanished_empty deleteGauges new reg :
  removeVanished deleteGauges ∅ new reg = reg.
Proof. unfold removeVanished. by rewrite map_fold_empty. Qed.

Lemma pathStepEffect_mono os basepath paths reg out g L :
  is_Some (reg g !! L) →
  is_Some ((foldl (λ acc path, pathStepEffect os basepath path acc) (reg, out) paths).1 g !! L).
Proof.
  revert reg out. induction paths as [|path paths IH]; intros reg out Hlive; [done|].
  cbn. destruct (Statfs os _) as [err|fs]; [by apply IH|].
  apply IH. rewrite setDataGauges_lookup.
  destruct (dataValue g fs); [|done]. by case_decide.
Qed.

(** [updateDatas] records no mount: the snapshot it leaves is the one it
    found (when the directory cannot be read) or the empty one. *)
Lemma updateDatasEffect_known os basepath st :
  knownDataNames st = ∅ → knownDataNames (updateDatasEffect os basepath st) = ∅.
Proof.
  unfold updateDatasEffect. destruct (dataPaths os basepath) as [err|paths]; [done|].
  by destruct (foldl _ _ paths).
Qed.

(** So nothing is ever removed by it. *)
Lemma updateDatasEffect_keeps os basepath st g L :
  knownDataNames st = ∅ →
  is_Some (registry st g !! L) →
  is_Some (registry (updateDatasEffect os basepath st) g !! L).
Proof.
  intros Hknown Hlive. unfold updateDatasEffect.
  destruct (dataPaths os basepath) as [err|paths]; [done|].
  pose proof (pathStepEffect_mono os basepath paths (registry st) (logged st) g L Hlive) as Hmono.
  destruct (foldl _ _ paths) as [reg out]. cbn in *.
  by rewrite Hknown, removeVanished_empty.
Qed.

Lemma updateContainers_known_data docker st st' :
  updateContainers docker st = Ok st' → knownDataNames st' = knownDataNames st.
Proof. intros Hpass. by destruct (updateContainers_Ok _ _ _ Hpass) as (_ & _ & _ & -> & _). Qed.

(** C3 on the code: the directory [pgdata] is seen by one pass of
    [updateDatas] and is gone in the next, whose enumeration succeeds; both
    passes complete; its
    five series are still in the registry after that pass, with the values of
    the first one. No pass records a mount in [knownDataNames], so the removal
    loop has nothing to go through. *)
Theorem mount_series_outlive_mount :
  let st1 := afterDatas ex_fs_mounted "/data" setup in
  let st2 := afterDatas ex_fs_unmounted "/data" st1 in
  let labels : prometheus.Labels := {[ "data_name"%string := "pgdata"%string ]} in
  updateDatas ex_fs_mounted "/data" setup = Ok st1
  ∧ updateDatas ex_fs_unmounted "/data" st1 = Ok st2
  ∧ dataPaths ex_fs_mounted "/data" = inr ["pgdata"%string]
  ∧ dataPaths ex_fs_unmounted "/data" = inr []
  ∧ knownDataNames st1 = ∅
  ∧ registry st1 dataFree !! labels = Some 1638400%float
  ∧ registry st2 dataFree !! labels = Some 1638400%float
  ∧ registry st2 dataAvailable !! labels = Some 1228800%float
  ∧ registry st2 dataSize !! labels = Some 4096000%float
  ∧ registry st2 dataInodesFree !! labels = Some 4000%float
  ∧ registry st2 dataInodes !! labels = Some 5000%float.
Proof. cbv zeta. repeat split; by vm_compute. Qed.

(** For comparison, the container loop does what [updateDatas] misses: a
    container of the previous snapshot that is not in the listing loses its
    series. *)
Lemma vanished_container_removed docker st st' id L g :
  updateContainers docker st = Ok st' →
  knownContainerIDs st !! id = Some L →
  (∀ container, container ∈ (client.ContainerList docker).1 → types.ID container ≠ id) →
  kindOf g = ContainerKind →
  registry st' g !! L = None.
Proof.
  intros Hpass Hid Hgone Hg.
  eapply unsampled_container_removed; [done..| |done].
  intros c name0 stats [Hin _]. by apply Hgone.
Qed.

(** [knownDataNames] is empty in every state of the loop. *)
Lemma reachable_no_known_data st : reachable st → knownDataNames st = ∅.
Proof.
  induction 1 as [|docker st st' _ IH Hpass|os basepath st st' _ IH Hpass]; [done| |].
  - by rewrite (updateContainers_known_data _ _ _ Hpass).
  - rewrite (updateDatas_Ok _ _ _ _ Hpass). by apply updateDatasEffect_known.
Qed.

Lemma reachable_keyed st : reachable st → snapshot_keyed st.
Proof.
  induction 1 as [|docker st st' _ _ Hpass|os basepath st st' _ IH Hpass].
  - apply snapshot_keyed_setup.
  - by eapply snapshot_keyed_updateContainers.
  - rewrite (updateDatas_Ok _ _ _ _ Hpass). by apply snapshot_keyed_updateDatasEffect.
Qed.

(** Hence a filesystem series, once set, is in the registry for good. *)
Lemma data_series_never_removed st st' g L :
  reachable st →
  kindOf g = DataKind →
  is_Some (registry st g !! L) →
  (∃ docker, updateContainers docker st = Ok st')
  ∨ (∃ os basepath, updateDatas os basepath st = Ok st') →
  is_Some (registry st' g !! L).
Proof.
  intros Hreach Hg Hlive [[docker Hpass]|(os & basepath & ->%updateDatas_Ok)].
  - by rewrite (registry_data_unchanged _ _ _ Hpass).
  - apply updateDatasEffect_keeps; [by apply reachable_no_known_data|done].
Qed.

(** * Exactness of the reconciliation *)

Lemma elem_of_observedContainerLabels docker L :
  L ∈ observedContainerLabels docker ↔
  ∃ container name0 stats,
    sampled docker container name0 stats ∧ L = containerLabels container name0.
Proof.
  unfold observedContainerLabels, sampled. rewrite list_elem_of_bind. split.
  - intros (c & HL & Hin).
    destruct (client.ContainerStatsOneShot docker (types.ID c)) as [| |stats] eqn:Hstats;
      try by apply elem_of_nil in HL.
    destruct (types.Names c) as [|name0 rest] eqn:Hnames; [by apply elem_of_nil in HL|].
    apply list_elem_of_singleton in HL as ->.
    exists c, name0, stats. by rewrite Hnames.
  - intros (c & name0 & stats & (Hin & Hstats & Hname) & ->). exists c. split; [|done].
    rewrite Hstats. destruct (types.Names c) as [|n rest]; [done|].
    injection Hname as ->. by apply list_elem_of_singleton.
Qed.

Lemma elem_of_observedNetworkLabels docker L :
  L ∈ observedNetworkLabels docker ↔
  ∃ container name0 stats intf,
    sampled docker container name0 stats
    ∧ is_Some (types.Networks stats !! intf)
    ∧ L = networkLabels container name0 intf.
Proof.
  unfold observedNetworkLabels, sampled. rewrite list_elem_of_bind. split.
  - intros (c & HL & Hin).
    destruct (client.ContainerStatsOneShot docker (types.ID c)) as [| |stats] eqn:Hstats;
      try by apply elem_of_nil in HL.
    destruct (types.Names c) as [|name0 rest] eqn:Hnames; [by apply elem_of_nil in HL|].
    apply list_elem_of_fmap in HL as ([intf net] & -> & Hnet%elem_of_map_to_list).
    exists c, name0, stats, intf. rewrite Hnames. by repeat split; [..|eexists].
  - intros (c & name0 & stats & intf & (Hin & Hstats & Hname) & [net Hnet] & ->).
    exists c. split; [|done].
    rewrite Hstats. destruct (types.Names c) as [|n rest]; [done|].
    injection Hname as ->. apply list_elem_of_fmap. exists (intf, net).
    split; [done|]. by apply elem_of_map_to_list.
Qed.

Lemma tracked_setup : tracked setup.
Proof. intros g L [v Hv]. cbn in Hv. by rewrite lookup_empty in Hv. Qed.

Lemma key_determines_labels_one docker container :
  (client.ContainerList docker).1 = [container] →
  key_determines_labels docker setup.
Proof.
  intros Hlist. split.
  - intros c name0 stats (Hc & _ & Hname). split; [intros L; cbn; by rewrite lookup_empty|].
    intros c' name0' stats' (Hc' & _ & Hname') _.
    rewrite Hlist in Hc, Hc'.
    apply list_elem_of_singleton in Hc as ->. apply list_elem_of_singleton in Hc' as ->.
    congruence.
  - intros c name0 stats intf (Hc & _ & Hname) _.
    split; [intros L; cbn; by rewrite lookup_empty|].
    intros c' name0' stats' intf' (Hc' & _ & Hname') _ Hkey.
    rewrite Hlist in Hc, Hc'.
    apply list_elem_of_singleton in Hc as ->. apply list_elem_of_singleton in Hc' as ->.
    apply append_inj_l in Hkey as ->. congruence.
Qed.

Section exactness.

Variable docker : client.Client.
Variables st st' : State.
Hypothesis Hkeyed : snapshot_keyed st.
Hypothesis Htracked : tracked st.
Hypothesis Hkeys : key_determines_labels docker st.
Hypothesis Hpass : updateContainers docker st = Ok st'.

Lemma live_containers_exact g L :
  kindOf g = ContainerKind →
  is_Some (registry st' g !! L) ↔ L ∈ observedContainerLabels docker.
Proof.
  intros Hg. rewrite elem_of_observedContainerLabels. split.
  - intros [v Hv].
    destruct (registry_sound _ _ _ Hpass _ _ _ Hv) as ([Hold|(w & Hw & Hset)] & Hkept & _).
    + destruct (Htracked g L) as [[id Hid] _]; [by eexists|done|].
      destruct (Hkept Hg id Hid) as [L' HL'].
      destruct (new_ids_sound _ _ _ Hpass _ _ HL') as (c & name0 & stats & Hs & <- & _).
      exists c, name0, stats. split; [done|].
      by apply (proj1 Hkeys c name0 stats Hs).
    + destruct w as [| c name0 stats | c name0 intf net]; cbn in Hset; [done| |].
      * destruct (containerValue g stats); [|done]. cbn in Hset.
        apply Some_pair_inv in Hset as [<- _].
        apply elem_of_passWrites_container in Hw. by exists c, name0, stats.
      * destruct (networkValue g net) eqn:Hn; [|done].
        assert (kindOf g = NetworkKind) by (by apply (networkValue_kind g net)). congruence.
  - intros (c & name0 & stats & Hs & ->).
    destruct (proj2 (containerValue_kind g stats) Hg) as [v Hv].
    exists v. by eapply sampled_container_value.
Qed.

Lemma live_networks_exact g L :
  kindOf g = NetworkKind →
  is_Some (registry st' g !! L) ↔ L ∈ observedNetworkLabels docker.
Proof.
  intros Hg. rewrite elem_of_observedNetworkLabels. split.
  - intros [v Hv].
    destruct (registry_sound _ _ _ Hpass _ _ _ Hv) as ([Hold|(w & Hw & Hset)] & _ & Hkept).
    + destruct (Htracked g L) as [_ [key Hkey]]; [by eexists|done|].
      destruct (Hkept Hg key Hkey) as [L' HL'].
      destruct (new_nets_sound _ _ _ Hpass _ _ HL')
        as (c & name0 & stats & intf & Hs & Hintf & <- & _).
      exists c, name0, stats, intf. split; [done|]. split; [done|].
      by apply (proj2 Hkeys c name0 stats intf Hs Hintf).
    + destruct w as [| c name0 stats | c name0 intf net]; cbn in Hset; [done| |].
      * destruct (containerValue g stats) eqn:Hc; [|done].
        assert (kindOf g = ContainerKind) by (by apply (containerValue_kind g stats)).
        congruence.
      * destruct (networkValue g net); [|done]. cbn in Hset.
        apply Some_pair_inv in Hset as [<- _].
        apply elem_of_passWrites_network in Hw as (? & ? & stats & ? & ?).
        exists c, name0, stats, intf. split; [done|]. split; [by eexists|done].
  - intros (c & name0 & stats & intf & Hs & [net Hnet] & ->).
    destruct (proj2 (networkValue_kind g net) Hg) as [v Hv].
    exists v. by eapply sampled_network_value.
Qed.

Lemma tracked_updateContainers : tracked st'.
Proof.
  intros g L Hlive. split; intros Hg.
  - apply (live_containers_exact _ _ Hg), elem_of_observedContainerLabels in Hlive
      as (c & name0 & stats & Hs & ->).
    destruct (new_ids_complete _ _ _ Hpass _ _ _ Hs) as [L' HL'].
    exists (types.ID c). rewrite HL'. f_equal.
    destruct (new_ids_sound _ _ _ Hpass _ _ HL') as (c' & name0' & stats' & Hs' & Hid & ->).
    by eapply (proj1 Hkeys c name0 stats Hs).
  - apply (live_networks_exact _ _ Hg), elem_of_observedNetworkLabels in Hlive
      as (c & name0 & stats & intf & Hs & Hintf & ->).
    destruct (new_nets_complete _ _ _ Hpass _ _ _ _ Hs Hintf) as [L' HL'].
    exists (networkKey (types.ID c) intf). rewrite HL'. f_equal.
    destruct (new_nets_sound _ _ _ Hpass _ _ HL')
      as (c' & name0' & stats' & intf' & Hs' & Hintf' & Hkey & ->).
    by eapply (proj2 Hkeys c name0 stats intf Hs Hintf).
Qed.

End exactness.

(** C1, as stated, fails: a container sampled under the name [/web-1] in one
    pass and, renamed, under [/web-2] in the next keeps its key, so nothing is
    removed; after the second pass the label set with [web-1] is still live
    though no entity observed in that pass has it. *)
Lemma stale_series_after_rename :
  let st1 := after (ex_docker 100000000 20000000) setup in
  let st2 := after ex_docker_renamed st1 in
  updateContainers (ex_docker 100000000 20000000) setup = Ok st1
  ∧ updateContainers ex_docker_renamed st1 = Ok st2
  ∧ observedContainerLabels ex_docker_renamed = [containerLabels ex_web_renamed "/web-2"]
  ∧ is_Some (registry st2 pids !! containerLabels ex_web "/web-1")
  ∧ containerLabels ex_web "/web-1" ∉ observedContainerLabels ex_docker_renamed.
Proof.
  cbv zeta. split; [reflexivity|]. split; [reflexivity|]. split; [reflexivity|].
  split; [by vm_compute; eexists|].
  intros Hin. change (observedContainerLabels ex_docker_renamed)
    with [containerLabels ex_web_renamed "/web-2"] in Hin.
  apply list_elem_of_singleton in Hin.
  apply (f_equal (λ m : gmap string string, m !! "container_name"%string)) in Hin.
  by vm_compute in Hin.
Qed.

(** C1, amended: for the container-level and the network-level series, let a
    pass start in a state where every live label set is recorded in the
    previous snapshot (as after [setup]), and let every identity key carry
    one label set in the previous snapshot and among the entities sampled in
    the pass. When the pass completes, the label sets live in each gauge are
    exactly those derived from the entities sampled in the pass, no stale one
    and none missing, and the new state is again of that kind. *)
Theorem reconciliation_exact docker st st' :
  snapshot_keyed st →
  tracked st →
  key_determines_labels docker st →
  updateContainers docker st = Ok st' →
  (∀ g L, kindOf g = ContainerKind →
          (is_Some (registry st' g !! L) ↔ L ∈ observedContainerLabels docker))
  ∧ (∀ g L, kindOf g = NetworkKind →
            (is_Some (registry st' g !! L) ↔ L ∈ observedNetworkLabels docker))
  ∧ snapshot_keyed st'
  ∧ tracked st'.
Proof.
  intros Hkeyed Htracked Hkeys Hpass. repeat split.
  - by eapply live_containers_exact.
  - by eapply live_containers_exact.
  - by eapply live_networks_exact.
  - by eapply live_networks_exact.
  - by apply (snapshot_keyed_updateContainers _ _ _ Hpass).
  - by apply (snapshot_keyed_updateContainers _ _ _ Hpass).
  - by eapply tracked_updateContainers.
  - by eapply tracked_updateContainers.
Qed.

(** A second pass over the same container, with a new sample. *)
Lemma ex_key_determines_labels :
  key_determines_labels (ex_docker 150000000 30000000)
    (after (ex_docker 100000000 20000000) setup).
Proof.
  split.
  - intros c name0 stats (Hc & _ & Hname).
    apply list_elem_of_singleton in Hc as ->. injection Hname as <-. split.
    + intros L HL. change (Some (containerLabels ex_web "/web-1") = Some L) in HL.
      congruence.
    + intros c' name0' stats' (Hc' & _ & Hname') _.
      apply list_elem_of_singleton in Hc' as ->. by injection Hname' as <-.
  - intros c name0 stats intf (Hc & Hstats & Hname) [net Hnet].
    apply list_elem_of_singleton in Hc as ->. injection Hname as <-.
    injection Hstats as <-.
    change (({[ "eth0"%string := ex_eth0 ]} : gmap string _) !! intf = Some net) in Hnet.
    apply lookup_singleton_Some in Hnet as [<- _]. split.
    + intros L HL. change (Some (networkLabels ex_web "/web-1" "eth0") = Some L) in HL.
      congruence.
    + intros c' name0' stats' intf' (Hc' & Hstats' & Hname') [net' Hnet'] _.
      apply list_elem_of_singleton in Hc' as ->. injection Hname' as <-.
      injection Hstats' as <-.
      change (({[ "eth0"%string := ex_eth0 ]} : gmap string _) !! intf' = Some net') in Hnet'.
      by apply lookup_singleton_Some in Hnet' as [<- _].
Qed.

Lemma reconciliation_exact_witness :
  let st := after (ex_docker 100000000 20000000) setup in
  let docker := ex_docker 150000000 30000000 in
  let st' := after docker st in
  (∀ g L, kindOf g = ContainerKind →
          (is_Some (registry st' g !! L) ↔ L ∈ observedContainerLabels docker))
  ∧ (∀ g L, kindOf g = NetworkKind →
            (is_Some (registry st' g !! L) ↔ L ∈ observedNetworkLabels docker))
  ∧ snapshot_keyed st'
  ∧ tracked st'.
Proof.
  apply (reconciliation_exact (ex_docker 150000000 30000000)
           (after (ex_docker 100000000 20000000) setup)).
  - apply (snapshot_keyed_updateContainers (ex_docker 100000000 20000000) setup). reflexivity.
  - apply (tracked_updateContainers (ex_docker 100000000 20000000) setup).
    + apply snapshot_keyed_setup.
    + apply tracked_setup.
    + by apply (key_determines_labels_one _ ex_web).
    + reflexivity.
  - apply ex_key_determines_labels.
  - reflexivity.
Defined.

(** * A whole turn of the loop *)

Lemma pathStepEffect_other_kinds os basepath paths reg out g L :
  kindOf g ≠ DataKind →
  (foldl (λ acc path, pathStepEffect os basepath path acc) (reg, out) paths).1 g !! L = reg g !! L.
Proof.
  intros Hg. revert reg out. induction paths as [|path paths IH]; intros reg out; [done|].
  cbn. destruct (Statfs os _) as [err|fs]; [by apply IH|].
  rewrite IH, setDataGauges_lookup.
  destruct (dataValue g fs) eqn:Hv; [|done].
  destruct Hg. by apply (dataValue_kind g fs).
Qed.

(** [updateDatas] leaves the container-level and network-level gauges and
    their snapshots alone. *)
Lemma updateDatasEffect_other_kinds os basepath st g L :
  kindOf g ≠ DataKind →
  registry (updateDatasEffect os basepath st) g !! L = registry st g !! L.
Proof.
  intros Hg. unfold updateDatasEffect.
  destruct (dataPaths os basepath) as [err|paths]; [done|].
  pose proof (pathStepEffect_other_kinds os basepath paths (registry st) (logged st) g L Hg) as Hsame.
  destruct (foldl _ _ paths) as [reg out]. cbn in *.
  change deleteDataGauges with (deleteGauges DataKind).
  by rewrite removeVanished_kept.
Qed.

Lemma updateDatasEffect_snapshots os basepath st :
  knownContainerIDs (updateDatasEffect os basepath st) = knownContainerIDs st
  ∧ knownContainerNetworks (updateDatasEffect os basepath st) = knownContainerNetworks st.
Proof.
  unfold updateDatasEffect. destruct (dataPaths os basepath) as [err|paths]; [done|].
  by destruct (foldl _ _ paths).
Qed.

Lemma tracked_updateDatasEffect os basepath st :
  tracked st → tracked (updateDatasEffect os basepath st).
Proof.
  intros Htracked g L Hlive.
  destruct (updateDatasEffect_snapshots os basepath st) as [-> ->].
  split; intros Hg; rewrite updateDatasEffect_other_kinds in Hlive by (by rewrite Hg);
    by apply (Htracked g L).
Qed.

(** The exactness of the container passes carries through the turns of
    [updateMetrics]: the state a turn leaves is fit for the next one. *)
Lemma updateMetricsStep_exact docker os basepath st st' :
  snapshot_keyed st →
  tracked st →
  key_determines_labels docker st →
  updateMetricsStep docker os basepath st = Ok st' →
  (∀ g L, kindOf g = ContainerKind →
          (is_Some (registry st' g !! L) ↔ L ∈ observedContainerLabels docker))
  ∧ (∀ g L, kindOf g = NetworkKind →
            (is_Some (registry st' g !! L) ↔ L ∈ observedNetworkLabels docker))
  ∧ snapshot_keyed st'
  ∧ tracked st'.
Proof.
  intros Hkeyed Htracked Hkeys. unfold updateMetricsStep.
  destruct (updateContainers docker st) as [st1|msg] eqn:Hpass; [|done].
  cbn. intros ->%updateDatas_Ok.
  split; [|split; [|split]].
  - intros g L Hg. rewrite updateDatasEffect_other_kinds by (by rewrite Hg).
    by eapply live_containers_exact.
  - intros g L Hg. rewrite updateDatasEffect_other_kinds by (by rewrite Hg).
    by eapply live_networks_exact.
  - eapply snapshot_keyed_updateDatasEffect, snapshot_keyed_updateContainers, Hpass.
  - by eapply tracked_updateDatasEffect, tracked_updateContainers.
Qed.

(** * Further properties of [updateContainers] *)

(** ** What a pass logs *)

Lemma fold_output ws cy :
  output (foldl applyWrite cy ws) = output cy ++ (ws ≫= writeLog).
Proof.
  revert cy. induction ws as [|w ws IH]; intros cy; cbn.
  - by rewrite app_nil_r.
  - rewrite IH. destruct w; cbn; [|done..]. unfold log_Print. by rewrite <-app_assoc.
Qed.

Lemma writeLog_networkWrites container name0 networks :
  networkWrites container name0 networks ≫= writeLog = [].
Proof.
  unfold networkWrites. induction (reverse (map_to_list networks)) as [|kv l IH]; [done|].
  cbn. exact IH.
Qed.

Lemma writeLog_passWrites docker containers :
  passWrites docker containers ≫= writeLog = failureLog docker containers.
Proof.
  unfold passWrites, failureLog.
  induction containers as [|container rest IH]; [done|].
  cbn. rewrite bind_app, IH. f_equal. unfold stepWrites.
  destruct (client.ContainerStatsOneShot docker (types.ID container)) as [err|err|stats];
    [done..|].
  destruct (types.Names container) as [|name0 names]; [done|].
  cbn. apply writeLog_networkWrites.
Qed.

(** X1: a completed pass appends to the log the line for a failed listing, if
    it failed, and then one line for each listed container whose sample was
    not fetched or not decoded, in the order of the listing; nothing else is
    logged and nothing already logged is changed. *)
Theorem container_pass_log docker st st' :
  updateContainers docker st = Ok st' →
  logged st' = logged st ++ listLog docker
                 ++ failureLog docker (client.ContainerList docker).1.
Proof.
  intros Hpass. destruct (updateContainers_Ok _ _ _ Hpass) as (_ & _ & _ & _ & -> & _).
  unfold endCycle. rewrite fold_output, writeLog_passWrites, app_assoc. f_equal.
  unfold startCycle, listLog. destruct (client.ContainerList docker).2; cbn; [done|].
  by rewrite app_nil_r.
Qed.

Lemma container_pass_log_witness :
  logged (after ex_docker_two setup)
  = ["Failed to get container stats: no such container"%string].
Proof. exact (container_pass_log ex_docker_two setup _ eq_refl). Defined.

(** ** When a pass panics *)

Lemma containerStep_Panic docker container cy msg :
  containerStep docker container cy = Panic msg →
  msg = "index out of range [0] with length 0"%string
  ∧ ∃ stats, client.ContainerStatsOneShot docker (types.ID container) = client.Decoded stats
             ∧ types.Names container = [].
Proof.
  unfold containerStep.
  destruct (client.ContainerStatsOneShot docker (types.ID container)) as [err|err|stats];
    [done..|].
  destruct (types.Names container) as [|name0 names]; [|done].
  cbn. intros [= <-]. eauto.
Qed.

Lemma forContainers_Panic docker containers cy msg :
  forContainers docker containers cy = Panic msg →
  msg = "index out of range [0] with length 0"%string
  ∧ ∃ container stats,
      container ∈ containers
      ∧ client.ContainerStatsOneShot docker (types.ID container) = client.Decoded stats
      ∧ types.Names container = [].
Proof.
  revert cy. induction containers as [|c rest IH]; intros cy; cbn; [done|].
  destruct (containerStep docker c cy) as [cy1|msg1] eqn:Hstep; cbn.
  - intros (-> & c' & stats & Hin & Hc')%IH. split; [done|].
    exists c', stats. split; [by right|done].
  - intros [= <-]. apply containerStep_Panic in Hstep as (-> & stats & Hstats & Hnames).
    split; [done|]. exists c, stats. split; [by left|done].
Qed.

(** X2: a pass panics, and then with the index-out-of-range message, exactly
    when the listing holds a container whose sample is fetched and decoded
    and whose [Names] is empty; failed fetches, failed decodings and a failed
    listing never make it panic. In every other case it returns a state. *)
Theorem updateContainers_panics_iff docker st :
  (updateContainers docker st = Panic "index out of range [0] with length 0"
   ↔ ∃ container stats,
       container ∈ (client.ContainerList docker).1
       ∧ client.ContainerStatsOneShot docker (types.ID container) = client.Decoded stats
       ∧ types.Names container = [])
  ∧ (∀ msg, updateContainers docker st = Panic msg →
            msg = "index out of range [0] with length 0"%string)
  ∧ ((∀ container stats,
        container ∈ (client.ContainerList docker).1 →
        client.ContainerStatsOneShot docker (types.ID container) = client.Decoded stats →
        types.Names container ≠ []) →
     ∃ st', updateContainers docker st = Ok st').
Proof.
  assert (∀ msg, updateContainers docker st = Panic msg →
            msg = "index out of range [0] with length 0"%string
            ∧ ∃ container stats,
                container ∈ (client.ContainerList docker).1
                ∧ client.ContainerStatsOneShot docker (types.ID container)
                  = client.Decoded stats
                ∧ types.Names container = []) as Hpanic.
  { intros msg. unfold updateContainers.
    destruct (client.ContainerList docker) as [containers err]. cbn.
    match goal with |- context [forContainers docker containers ?c] => set (cy0 := c) end.
    destruct (forContainers docker containers cy0) as [cy1|msg1] eqn:Hloop; [done|].
    cbn. intros [= <-]. by apply forContainers_Panic in Hloop. }
  split; [split|split].
  - intros H. by apply Hpanic in H as [_ ?].
  - intros (c & stats & Hin & Hstats & Hnames).
    destruct (updateContainers docker st) as [st'|msg] eqn:Hpass.
    + destruct (updateContainers_Ok _ _ _ Hpass) as (Hloop & _).
      destruct (forContainers_named _ _ _ _ _ _ Hloop Hin Hstats) as [name0 Hname0].
      by rewrite Hnames in Hname0.
    + by destruct (Hpanic msg eq_refl) as [-> _].
  - intros msg H. by apply Hpanic in H as [? _].
  - apply updateContainers_total.
Qed.

(** ** The snapshots a pass leaves *)

(** X3: the snapshots a completed pass leaves hold a key exactly for the
    sampled entities: a container ID is a key of [knownContainerIDs] exactly
    when a listed container with that ID was sampled, a string is a key of
    [knownContainerNetworks] exactly when it is the key of an interface of a
    sampled container, and the label set recorded under a key is the label
    literal of such an entity. What the snapshots held before plays no part. *)
Theorem snapshot_holds_sampled docker st st' :
  updateContainers docker st = Ok st' →
  (∀ id, is_Some (knownContainerIDs st' !! id) ↔
         ∃ container name0 stats,
           sampled docker container name0 stats ∧ types.ID container = id)
  ∧ (∀ key, is_Some (knownContainerNetworks st' !! key) ↔
            ∃ container name0 stats intf,
              sampled docker container name0 stats
              ∧ is_Some (types.Networks stats !! intf)
              ∧ networkKey (types.ID container) intf = key)
  ∧ (∀ id L, knownContainerIDs st' !! id = Some L →
             ∃ container name0 stats,
               sampled docker container name0 stats ∧ types.ID container = id
               ∧ L = containerLabels container name0)
  ∧ (∀ key L, knownContainerNetworks st' !! key = Some L →
              ∃ container name0 stats intf,
                sampled docker container name0 stats
                ∧ is_Some (types.Networks stats !! intf)
                ∧ networkKey (types.ID container) intf = key
                ∧ L = networkLabels container name0 intf).
Proof.
  intros Hpass. split; [|split; [|split]].
  - intros id. split.
    + intros [L (c & name0 & stats & Hs & Hid & _)%(new_ids_sound _ _ _ Hpass)]. eauto.
    + intros (c & name0 & stats & Hs & <-). by eapply new_ids_complete.
  - intros key. split.
    + intros [L (c & name0 & stats & intf & Hs & Hi & Hk & _)%(new_nets_sound _ _ _ Hpass)].
      eauto 8.
    + intros (c & name0 & stats & intf & Hs & Hi & <-). by eapply new_nets_complete.
  - intros id L. apply (new_ids_sound _ _ _ Hpass).
  - intros key L. apply (new_nets_sound _ _ _ Hpass).
Qed.

Lemma snapshot_holds_sampled_witness :
  let st' := after ex_docker_two (after ex_docker_failing setup) in
  (∀ id, is_Some (knownContainerIDs st' !! id) ↔
         ∃ container name0 stats,
           sampled ex_docker_two container name0 stats ∧ types.ID container = id)
  ∧ (∀ key, is_Some (knownContainerNetworks st' !! key) ↔
            ∃ container name0 stats intf,
              sampled ex_docker_two container name0 stats
              ∧ is_Some (types.Networks stats !! intf)
              ∧ networkKey (types.ID container) intf = key)
  ∧ (∀ id L, knownContainerIDs st' !! id = Some L →
             ∃ container name0 stats,
               sampled ex_docker_two container name0 stats ∧ types.ID container = id
               ∧ L = containerLabels container name0)
  ∧ (∀ key L, knownContainerNetworks st' !! key = Some L →
              ∃ container name0 stats intf,
                sampled ex_docker_two container name0 stats
                ∧ is_Some (types.Networks stats !! intf)
                ∧ networkKey (types.ID container) intf = key
                ∧ L = networkLabels container name0 intf).
Proof.
  exact (snapshot_holds_sampled ex_docker_two (after ex_docker_failing setup) _ eq_refl).
Defined.

(** ** Removal on disappearance *)

(** X4: when a pass completes, a container of the previous snapshot that is
    not in the listing any more has lost its six container-level series and
    its snapshot entry; and, the listed IDs having the length of its own, an
    interface of the previous snapshot that no sampled container with its ID
    reports any more has lost its eight network-level series and its entry,
    be it that the container is gone or that the interface is. *)
Theorem removed_on_disappearance docker st st' id :
  snapshot_keyed st →
  updateContainers docker st = Ok st' →
  (∀ L, knownContainerIDs st !! id = Some L →
        (∀ container, container ∈ (client.ContainerList docker).1 →
                      types.ID container ≠ id) →
        knownContainerIDs st' !! id = None
        ∧ ∀ g, kindOf g = ContainerKind → registry st' g !! L = None)
  ∧ (∀ key Ln intf,
       knownContainerNetworks st !! key = Some Ln →
       Ln !! "container_id"%string = Some id →
       Ln !! "interface"%string = Some intf →
       (∀ container, container ∈ (client.ContainerList docker).1 →
                     String.length (types.ID container) = String.length id) →
       (∀ container name0 stats,
          sampled docker container name0 stats → types.ID container = id →
          types.Networks stats !! intf = None) →
       knownContainerNetworks st' !! key = None
       ∧ ∀ g, kindOf g = NetworkKind → registry st' g !! Ln = None).
Proof.
  intros Hkeyed Hpass. split.
  - intros L Hid Hgone.
    assert (∀ c name0 stats, sampled docker c name0 stats → types.ID c ≠ id) as Hnot.
    { intros c name0 stats [Hin _]. by apply Hgone. }
    split; [by eapply (unsampled_container_removed _ _ _ Hpass _ _ pids)|].
    intros g Hg. by eapply unsampled_container_removed.
  - intros key Ln intf Hkey Hcid Hintf Hlen Hgone.
    assert (∀ c name0 stats i, sampled docker c name0 stats →
              is_Some (types.Networks stats !! i) →
              networkKey (types.ID c) i ≠ key) as Hnot.
    { intros c name0 stats i Hs [net Hnet] Heq.
      apply Hkeyed in Hkey as (id' & intf' & Hid' & Hintf' & ->).
      rewrite Hcid in Hid'. injection Hid' as <-.
      rewrite Hintf in Hintf'. injection Hintf' as <-.
      apply append_inj_length in Heq as [Heq ->]; [|apply Hlen; by destruct Hs].
      rewrite (Hgone c name0 stats Hs Heq) in Hnet. done. }
    split; [by eapply (unsampled_network_removed _ _ _ Hpass _ _ networkReceiveBytes)|].
    intros g Hg. by eapply unsampled_network_removed.
Qed.

Lemma removed_on_disappearance_witness :
  let st := after ex_docker_two setup in
  let st' := after ex_docker_db_only st in
  (knownContainerIDs st !! "c0ffee01"%string = Some (containerLabels ex_web "/web-1")
   ∧ knownContainerIDs st' !! "c0ffee01"%string = None
   ∧ ∀ g, kindOf g = ContainerKind →
          registry st' g !! containerLabels ex_web "/web-1" = None)
  ∧ (knownContainerNetworks st !! "c0ffee01eth0"%string
       = Some (networkLabels ex_web "/web-1" "eth0")
     ∧ knownContainerNetworks st' !! "c0ffee01eth0"%string = None
     ∧ ∀ g, kindOf g = NetworkKind →
            registry st' g !! networkLabels ex_web "/web-1" "eth0" = None).
Proof.
  cbv zeta.
  destruct (removed_on_disappearance ex_docker_db_only (after ex_docker_two setup)
              (after ex_docker_db_only (after ex_docker_two setup)) "c0ffee01"
              (snapshot_keyed_updateContainers ex_docker_two setup _ eq_refl) eq_refl)
    as [Hcontainer Hnetwork].
  split; (split; [reflexivity|]).
  - apply Hcontainer; [reflexivity|].
    intros c ->%list_elem_of_singleton. discriminate.
  - apply (Hnetwork _ _ "eth0"%string); [reflexivity..| |].
    + by intros c ->%list_elem_of_singleton.
    + intros c name0 stats [->%list_elem_of_singleton _]. discriminate.
Defined.

(** ** What is exposed for the sampled entities *)

(** X5: after a completed pass the eight network-level series of every
    interface in the sample of a sampled container hold that interface's
    receive and transmit counters for bytes, packets, errors and drops, under
    the container's labels extended with the interface name. *)
Theorem network_counters_exposed docker st st' container name0 stats intf net :
  snapshot_keyed st →
  updateContainers docker st = Ok st' →
  sampled docker container name0 stats →
  types.Networks stats !! intf = Some net →
  let labels := networkLabels container name0 intf in
  registry st' networkReceiveBytes !! labels = Some (float64 (types.RxBytes net))
  ∧ registry st' networkTransmitBytes !! labels = Some (float64 (types.TxBytes net))
  ∧ registry st' networkReceivePackets !! labels = Some (float64 (types.RxPackets net))
  ∧ registry st' networkTransmitPackets !! labels = Some (float64 (types.TxPackets net))
  ∧ registry st' networkReceiveErrors !! labels = Some (float64 (types.RxErrors net))
  ∧ registry st' networkTransmitErrors !! labels = Some (float64 (types.TxErrors net))
  ∧ registry st' networkReceiveDropped !! labels = Some (float64 (types.RxDropped net))
  ∧ registry st' networkTransmitDropped !! labels = Some (float64 (types.TxDropped net)).
Proof.
  intros Hkeyed Hpass Hs Hnet labels.
  repeat split; by eapply sampled_network_value.
Qed.

Lemma network_counters_exposed_witness :
  let st' := after ex_docker_two setup in
  let labels := networkLabels ex_web "/web-1" "eth0" in
  registry st' networkReceiveBytes !! labels = Some 1024%float
  ∧ registry st' networkTransmitBytes !! labels = Some 2048%float
  ∧ registry st' networkReceivePackets !! labels = Some 16%float
  ∧ registry st' networkTransmitPackets !! labels = Some 32%float
  ∧ registry st' networkReceiveErrors !! labels = Some 0%float
  ∧ registry st' networkTransmitErrors !! labels = Some 2%float
  ∧ registry st' networkReceiveDropped !! labels = Some 1%float
  ∧ registry st' networkTransmitDropped !! labels = Some 0%float.
Proof.
  apply (network_counters_exposed ex_docker_two setup _ ex_web "/web-1"
           (ex_stats 100000000 20000000) "eth0" ex_eth0 snapshot_keyed_setup eq_refl).
  - repeat split. set_solver.
  - reflexivity.
Defined.

(** X6: two sampled containers with different IDs have different label sets,
    whatever their names, images and compose labels, and after the pass the
    [container_pids] series of each holds its own process count: a failure to
    sample other listed containers, or their order in the listing, does not
    change that. *)
Theorem distinct_ids_distinct_series docker st st' c1 name1 stats1 c2 name2 stats2 :
  snapshot_keyed st →
  updateContainers docker st = Ok st' →
  sampled docker c1 name1 stats1 →
  sampled docker c2 name2 stats2 →
  types.ID c1 ≠ types.ID c2 →
  containerLabels c1 name1 ≠ containerLabels c2 name2
  ∧ registry st' pids !! containerLabels c1 name1
    = Some (float64 (types.Current (types.PidsStats stats1)))
  ∧ registry st' pids !! containerLabels c2 name2
    = Some (float64 (types.Current (types.PidsStats stats2))).
Proof.
  intros Hkeyed Hpass Hs1 Hs2 Hne. split; [|split].
  - by intros Heq%containerLabels_inj_id.
  - by eapply sampled_container_value.
  - by eapply sampled_container_value.
Qed.

Lemma distinct_ids_distinct_series_witness :
  let st' := after ex_docker_two setup in
  containerLabels ex_web "/web-1" ≠ containerLabels ex_db "/db-1"
  ∧ registry st' pids !! containerLabels ex_web "/web-1" = Some 3%float
  ∧ registry st' pids !! containerLabels ex_db "/db-1" = Some 11%float.
Proof.
  apply (distinct_ids_distinct_series ex_docker_two setup _ ex_web "/web-1"
           (ex_stats 100000000 20000000) ex_db "/db-1" ex_stats_db
           snapshot_keyed_setup eq_refl).
  - repeat split. set_solver.
  - repeat split. set_solver.
  - discriminate.
Defined.

(** ** The two passes keep to their own series *)

(** X7: a container pass that completes leaves [knownDataNames] and every
    filesystem-level series as they are, and a filesystem pass that completes
    leaves both container snapshots and every container-level and
    network-level series as they are. *)
Theorem passes_keep_apart docker os basepath st :
  (∀ st', updateContainers docker st = Ok st' →
          knownDataNames st' = knownDataNames st
          ∧ ∀ g L, kindOf g = DataKind → registry st' g !! L = registry st g !! L)
  ∧ (∀ st', updateDatas os basepath st = Ok st' →
            knownContainerIDs st' = knownContainerIDs st
            ∧ knownContainerNetworks st' = knownContainerNetworks st
            ∧ ∀ g L, kindOf g ≠ DataKind → registry st' g !! L = registry st g !! L).
Proof.
  split.
  - intros st' Hpass. split; [by eapply updateContainers_known_data|].
    intros g L Hg. by eapply registry_data_unchanged.
  - intros st' ->%updateDatas_Ok. split; [|split].
    + apply updateDatasEffect_snapshots.
    + apply updateDatasEffect_snapshots.
    + intros g L Hg. by apply updateDatasEffect_other_kinds.
Qed.

(** * Further properties of [updateDatas] *)

Section path_loop.

Variable os : FileSystem.
Variable basepath : string.

Lemma dataLabels_inj p q : dataLabels p = dataLabels q → p = q.
Proof.
  intros H. apply (f_equal (λ m : gmap string string, m !! "data_name"%string)) in H.
  unfold dataLabels in H. rewrite !lookup_singleton_eq in H. congruence.
Qed.

Lemma pathStepEffect_lookup path reg out g L :
  (pathStepEffect os basepath path (reg, out)).1 g !! L =
    match Statfs os (basepath +:+ "/" +:+ path) with
    | inl _ => reg g !! L
    | inr fs =>
        match dataValue g fs with
        | Some v => if decide (dataLabels path = L) then Some v else reg g !! L
        | None => reg g !! L
        end
    end.
Proof.
  cbn. destruct (Statfs os _) as [err|fs]; [done|]. cbn.
  by rewrite setDataGauges_lookup.
Qed.

Lemma loop_snoc paths path acc :
  forPathsEffect os basepath (paths ++ [path]) acc
  = pathStepEffect os basepath path (forPathsEffect os basepath paths acc).
Proof. unfold forPathsEffect. by rewrite foldl_app. Qed.

Lemma loop_output paths reg out :
  (forPathsEffect os basepath paths (reg, out)).2 = out ++ statFailureLog os basepath paths.
Proof.
  unfold forPathsEffect, statFailureLog. revert reg out.
  induction paths as [|path paths IH]; intros reg out; cbn; [by rewrite app_nil_r|].
  destruct (Statfs os _) as [err|fs]; rewrite IH; [|done].
  unfold log_Print. by rewrite <-app_assoc.
Qed.

(** Each path that is statted has its values in the gauges at the end. *)
Lemma loop_value paths reg out path fs g v :
  path ∈ paths →
  Statfs os (basepath +:+ "/" +:+ path) = inr fs →
  dataValue g fs = Some v →
  (forPathsEffect os basepath paths (reg, out)).1 g !! dataLabels path = Some v.
Proof.
  intros Hin Hfs Hv. induction paths as [|p paths IH] using rev_ind;
    [by apply elem_of_nil in Hin|].
  rewrite loop_snoc. destruct (forPathsEffect os basepath paths (reg, out)) as [reg1 out1] eqn:Hloop.
  rewrite pathStepEffect_lookup.
  apply elem_of_app in Hin as [Hin| ->%list_elem_of_singleton].
  - specialize (IH Hin). cbn in IH.
    destruct (Statfs os (basepath +:+ "/" +:+ p)) as [err|fs'] eqn:Hfs'; [done|].
    destruct (dataValue g fs') as [v'|] eqn:Hv'; [|done].
    case_decide as Hp; [|done]. apply dataLabels_inj in Hp as ->. congruence.
  - rewrite Hfs, Hv. by rewrite decide_True.
Qed.

(** Whatever is in the gauges at the end was there before or was set for a
    path that was statted. *)
Lemma loop_sound paths reg out g L v :
  (forPathsEffect os basepath paths (reg, out)).1 g !! L = Some v →
  reg g !! L = Some v
  ∨ ∃ path fs, path ∈ paths
               ∧ Statfs os (basepath +:+ "/" +:+ path) = inr fs
               ∧ L = dataLabels path ∧ dataValue g fs = Some v.
Proof.
  induction paths as [|p paths IH] using rev_ind; [by left|].
  rewrite loop_snoc. destruct (forPathsEffect os basepath paths (reg, out)) as [reg1 out1] eqn:Hloop.
  rewrite pathStepEffect_lookup. cbn in IH.
  assert (reg1 g !! L = Some v →
          reg g !! L = Some v
          ∨ ∃ path fs, path ∈ paths ++ [p]
                       ∧ Statfs os (basepath +:+ "/" +:+ path) = inr fs
                       ∧ L = dataLabels path ∧ dataValue g fs = Some v) as Hold.
  { intros [?|(path & fs & Hin & ?)]%IH; [by left|].
    right. exists path, fs. split; [apply elem_of_app; by left|done]. }
  destruct (Statfs os (basepath +:+ "/" +:+ p)) as [err|fs] eqn:Hfs; [done|].
  destruct (dataValue g fs) as [v'|] eqn:Hv; [|done].
  case_decide as Hp; [|done]. intros [= <-]. right. exists p, fs.
  split; [apply elem_of_app; right; by apply list_elem_of_singleton|done].
Qed.

End path_loop.

Lemma updateDatasEffect_paths os basepath st paths :
  dataPaths os basepath = inr paths →
  let acc := foldl (λ acc path, pathStepEffect os basepath path acc) (registry st, logged st) paths in
  knownDataNames (updateDatasEffect os basepath st) = ∅
  ∧ logged (updateDatasEffect os basepath st) = acc.2
  ∧ registry (updateDatasEffect os basepath st)
    = removeVanished (deleteGauges DataKind) (knownDataNames st) ∅ acc.1.
Proof.
  intros Hpaths. unfold updateDatasEffect. rewrite Hpaths. cbn.
  by destruct (foldl _ _ paths).
Qed.

(** The paths a pass stats: the root itself for the base path ["/"], the
    names of the directories right below the base path otherwise. *)
Lemma elem_of_dataPaths os basepath paths path :
  dataPaths os basepath = inr paths →
  path ∈ paths ↔
  (basepath = "/"%string ∧ path = "/"%string)
  ∨ (basepath ≠ "/"%string
     ∧ ∃ files f, ReadDir os basepath = inr files
                  ∧ f ∈ files ∧ ioutil.IsDir f = true ∧ ioutil.Name f = path).
Proof.
  unfold dataPaths. destruct (String.eqb_spec basepath "/") as [->|Hne].
  - intros [= <-]. rewrite list_elem_of_singleton. naive_solver.
  - destruct (ReadDir os basepath) as [err|files]; [done|]. intros [= <-].
    rewrite list_elem_of_fmap. setoid_rewrite list_elem_of_filter. split.
    + intros (f & -> & Hdir & Hin). right. split; [done|]. by exists files, f.
    + intros [[? _]|(_ & files' & f & [= <-] & Hin & Hdir & <-)]; [done|]. by exists f.
Qed.

(** X8: in a state the loop reaches, a filesystem pass over paths none of
    which makes [With] panic (each one cannot be statted or has a name that
    is valid UTF-8) completes and leaves, for every path it stats, the five
    series labelled with that path holding: free blocks times block size,
    available blocks times block size, total blocks times block size, free
    inodes and total inodes. The products are the exact ones when the block
    size is not negative, the free and available block counts do not exceed
    the total and the total size is below 2^64 bytes. Paths that cannot be
    statted do not stop the others. *)
Theorem data_values_exposed os basepath st paths path fs :
  reachable st →
  dataPaths os basepath = inr paths →
  (∀ p, p ∈ paths → withPanics os basepath p = false) →
  path ∈ paths →
  Statfs os (basepath +:+ "/" +:+ path) = inr fs →
  (0 ≤ unix.Bsize fs < two64)%Z →
  (0 ≤ unix.Bfree fs ≤ unix.Blocks fs)%Z →
  (0 ≤ unix.Bavail fs ≤ unix.Blocks fs)%Z →
  (unix.Blocks fs * unix.Bsize fs < two64)%Z →
  ∃ st',
    updateDatas os basepath st = Ok st'
    ∧ utf8.ValidString path = true
    ∧ let labels := dataLabels path in
      registry st' dataFree !! labels = Some (float64 (unix.Bfree fs * unix.Bsize fs))
      ∧ registry st' dataAvailable !! labels = Some (float64 (unix.Bavail fs * unix.Bsize fs))
      ∧ registry st' dataSize !! labels = Some (float64 (unix.Blocks fs * unix.Bsize fs))
      ∧ registry st' dataInodesFree !! labels = Some (float64 (unix.Ffree fs))
      ∧ registry st' dataInodes !! labels = Some (float64 (unix.Files fs)).
Proof.
  intros Hreach Hpaths Hvalid Hin Hfs Hbsize Hfree Havail Hsize.
  exists (updateDatasEffect os basepath st).
  split; [by eapply updateDatas_total|].
  split.
  { specialize (Hvalid path Hin). unfold withPanics in Hvalid. rewrite Hfs in Hvalid.
    by destruct (utf8.ValidString path). }
  cbv zeta.
  assert (∀ g v, dataValue g fs = Some v →
            registry (updateDatasEffect os basepath st) g !! dataLabels path = Some v)
    as Hvalue.
  { intros g v Hv.
    destruct (updateDatasEffect_paths os basepath st paths Hpaths) as (_ & _ & ->).
    rewrite (reachable_no_known_data st Hreach), removeVanished_empty.
    by eapply loop_value. }
  assert (∀ blocks, (0 ≤ blocks ≤ unix.Blocks fs)%Z →
            mul64 blocks (uint64_of_int64 (unix.Bsize fs)) = (blocks * unix.Bsize fs)%Z)
    as Hexact.
  { intros blocks Hblocks. unfold mul64, uint64_of_int64.
    rewrite (Z.mod_small (unix.Bsize fs)) by done. apply Z.mod_small. nia. }
  split; [|split; [|split; [|split]]].
  - rewrite <-(Hexact (unix.Bfree fs)) by done. by apply Hvalue.
  - rewrite <-(Hexact (unix.Bavail fs)) by done. by apply Hvalue.
  - rewrite <-(Hexact (unix.Blocks fs)) by lia. by apply Hvalue.
  - by apply Hvalue.
  - by apply Hvalue.
Qed.

Lemma data_values_exposed_witness :
  ∃ st',
    updateDatas ex_fs_two "/data" (after ex_docker_two setup) = Ok st'
    ∧ utf8.ValidString "pgdata" = true
    ∧ let labels := dataLabels "pgdata" in
      registry st' dataFree !! labels = Some 1638400%float
      ∧ registry st' dataAvailable !! labels = Some 1228800%float
      ∧ registry st' dataSize !! labels = Some 4096000%float
      ∧ registry st' dataInodesFree !! labels = Some 4000%float
      ∧ registry st' dataInodes !! labels = Some 5000%float.
Proof.
  apply (data_values_exposed ex_fs_two "/data" (after ex_docker_two setup)
           ["pgdata"; "broken"]%string "pgdata" ex_statfs).
  - apply (reachable_updateContainers ex_docker_two setup); [constructor|reflexivity].
  - reflexivity.
  - intros p [->|[->|[]%elem_of_nil]%elem_of_cons]%elem_of_cons; reflexivity.
  - by left.
  - reflexivity.
  - by vm_compute.
  - by vm_compute.
  - by vm_compute.
  - reflexivity.
Defined.

(** X9: a filesystem-level series that is in the registry after a filesystem
    pass that completed was there before the pass with the same value, or is labelled with a
    path that the pass statted and holds the value computed from that path's
    statistics; such a path is ["/"] when the base path is ["/"] and
    otherwise the name of a directory right below the base path. Plain files
    and paths that cannot be statted get no series. *)
Theorem data_series_sources os basepath st st' g L v :
  kindOf g = DataKind →
  updateDatas os basepath st = Ok st' →
  registry st' g !! L = Some v →
  registry st g !! L = Some v
  ∨ ∃ path fs,
      Statfs os (basepath +:+ "/" +:+ path) = inr fs
      ∧ L = dataLabels path
      ∧ dataValue g fs = Some v
      ∧ ((basepath = "/"%string ∧ path = "/"%string)
         ∨ (basepath ≠ "/"%string
            ∧ ∃ files f, ReadDir os basepath = inr files
                         ∧ f ∈ files ∧ ioutil.IsDir f = true ∧ ioutil.Name f = path)).
Proof.
  intros Hg ->%updateDatas_Ok Hlive.
  destruct (dataPaths os basepath) as [err|paths] eqn:Hpaths.
  - left. unfold updateDatasEffect in Hlive. by rewrite Hpaths in Hlive.
  - destruct (updateDatasEffect_paths os basepath st paths Hpaths) as (_ & _ & Hreg).
    rewrite Hreg in Hlive. apply removeVanished_Some in Hlive as [Hlive _].
    destruct (foldl _ _ paths) as [reg out] eqn:Hloop. cbn in Hlive.
    pose proof (loop_sound os basepath paths (registry st) (logged st) g L v) as Hsound.
    unfold forPathsEffect in Hsound. rewrite Hloop in Hsound.
    destruct (Hsound Hlive) as [?|(path & fs & Hin & Hfs & -> & Hv)]; [by left|].
    right. exists path, fs. repeat split; [done..|].
    by apply (elem_of_dataPaths os basepath paths path Hpaths).
Qed.

Lemma data_series_sources_witness :
  let st := after ex_docker_two setup in
  registry st dataInodes !! dataLabels "pgdata" = Some 5000%float
  ∨ ∃ path fs,
      Statfs ex_fs_two ("/data" +:+ "/" +:+ path) = inr fs
      ∧ dataLabels "pgdata" = dataLabels path
      ∧ dataValue dataInodes fs = Some 5000%float
      ∧ (("/data"%string = "/"%string ∧ path = "/"%string)
         ∨ ("/data"%string ≠ "/"%string
            ∧ ∃ files f, ReadDir ex_fs_two "/data" = inr files
                         ∧ f ∈ files ∧ ioutil.IsDir f = true ∧ ioutil.Name f = path)).
Proof.
  apply (data_series_sources ex_fs_two "/data" (after ex_docker_two setup)
           (afterDatas ex_fs_two "/data" (after ex_docker_two setup))); reflexivity.
Defined.

(** X10: when the directories below the base path cannot be read, a
    filesystem pass completes, appends the one line for that to the log and
    leaves the registry and [knownDataNames] untouched: no series is set and
    none is removed in that pass. Otherwise the pass completes exactly when
    none of its paths makes [With] panic, which a path does that can be
    statted and has a name that is not valid UTF-8; a pass that completes
    has appended to the log one line for each path it cannot stat, in the
    order of the paths, and nothing else. *)
Theorem data_pass_log os basepath st :
  match dataPaths os basepath with
  | inl err =>
      ∃ st', updateDatas os basepath st = Ok st'
             ∧ logged st' = logged st ++ ["Failed to get data names: " +:+ err]
             ∧ registry st' = registry st
             ∧ knownDataNames st' = knownDataNames st
  | inr paths =>
      ((∀ path, path ∈ paths → withPanics os basepath path = false) →
       ∃ st', updateDatas os basepath st = Ok st')
      ∧ (∀ path, path ∈ paths → withPanics os basepath path = true →
                 ∃ msg, updateDatas os basepath st = Panic msg)
      ∧ (∀ st', updateDatas os basepath st = Ok st' →
                logged st' = logged st ++ statFailureLog os basepath paths)
  end.
Proof.
  destruct (dataPaths os basepath) as [err|paths] eqn:Hpaths.
  - exists (updateDatasEffect os basepath st).
    split; [by eapply updateDatas_unreadable|].
    unfold updateDatasEffect. by rewrite Hpaths.
  - split; [|split].
    + intros Hvalid. eexists. by eapply updateDatas_total.
    + intros path Hin Hbad. by eapply updateDatas_panics.
    + intros st' ->%updateDatas_Ok.
      destruct (updateDatasEffect_paths os basepath st paths Hpaths) as (_ & -> & _).
      apply loop_output.
Qed.

Lemma data_pass_log_witness :
  (∃ st', updateDatas ex_fs_unreadable "/data" setup = Ok st'
          ∧ logged st' = ["Failed to get data names: permission denied"%string]
          ∧ registry st' = registry setup
          ∧ knownDataNames st' = knownDataNames setup)
  ∧ (∃ st', updateDatas ex_fs_two "/data" setup = Ok st')
  ∧ (∀ st', updateDatas ex_fs_two "/data" setup = Ok st' →
            logged st' = ["Failed to stat /data/broken: input/output error"%string])
  ∧ (∃ msg, updateDatas ex_fs_latin1 "/data" setup = Panic msg).
Proof.
  split; [|split; [|split]].
  - apply (data_pass_log ex_fs_unreadable "/data" setup).
  - apply (data_pass_log ex_fs_two "/data" setup).
    intros p [->|[->|[]%elem_of_nil]%elem_of_cons]%elem_of_cons; reflexivity.
  - apply (data_pass_log ex_fs_two "/data" setup).
  - pose proof (data_pass_log ex_fs_latin1 "/data" setup) as Hlatin1.
    change (dataPaths ex_fs_latin1 "/data") with (inr (B := list string) (A := string) ["pgdata"%string; ex_latin1_name]) in Hlatin1.
    cbv beta iota in Hlatin1. destruct Hlatin1 as (_ & Hpanic & _).
    apply (Hpanic ex_latin1_name); [|reflexivity].
    right. by left.
Defined.

(** * Properties of the loop of [updateMetrics] *)

Lemma updateMetricsStep_reachable docker os basepath st st' :
  reachable st → updateMetricsStep docker os basepath st = Ok st' → reachable st'.
Proof.
  intros Hreach. unfold updateMetricsStep.
  destruct (updateContainers docker st) as [st1|msg] eqn:Hpass; [|done].
  cbn. intros Hdatas. eapply reachable_updateDatas; [|done].
  by eapply reachable_updateContainers.
Qed.

Lemma updateMetrics_reachable basepath answers st st' :
  reachable st → updateMetrics basepath answers st = Ok st' → reachable st'.
Proof.
  revert st. induction answers as [|[docker os] rest IH]; intros st Hreach; cbn.
  - by intros [= <-].
  - destruct (updateMetricsStep docker os basepath st) as [st1|msg] eqn:Hstep; [|done].
    cbn. apply IH. by eapply updateMetricsStep_reachable.
Qed.

Lemma key_determines_labels_updateDatasEffect docker os basepath st :
  key_determines_labels docker st →
  key_determines_labels docker (updateDatasEffect os basepath st).
Proof.
  unfold key_determines_labels.
  by destruct (updateDatasEffect_snapshots os basepath st) as [-> ->].
Qed.

(** X11: through any number of turns of the loop, whatever the runtime and
    the file system answer, a filesystem-level series that is in the registry
    stays in it, and [knownDataNames] stays empty: the loop never removes a
    filesystem series. *)
Theorem data_series_persist basepath answers st st' g L :
  reachable st →
  updateMetrics basepath answers st = Ok st' →
  kindOf g = DataKind →
  is_Some (registry st g !! L) →
  is_Some (registry st' g !! L) ∧ knownDataNames st' = ∅.
Proof.
  intros Hreach Hrun Hg Hlive. split.
  - revert st Hreach Hrun Hlive.
    induction answers as [|[docker os] rest IH]; intros st Hreach; cbn.
    + by intros [= <-].
    + destruct (updateMetricsStep docker os basepath st) as [st1|msg] eqn:Hstep; [|done].
      cbn. intros Hrun Hlive.
      apply (IH st1); [by eapply updateMetricsStep_reachable|done|].
      unfold updateMetricsStep in Hstep.
      destruct (updateContainers docker st) as [st0|msg] eqn:Hpass; [|done].
      cbn in Hstep. apply updateDatas_Ok in Hstep as ->.
      apply updateDatasEffect_keeps.
      * apply reachable_no_known_data. by eapply reachable_updateContainers.
      * by rewrite (registry_data_unchanged _ _ _ Hpass).
  - apply reachable_no_known_data. by eapply updateMetrics_reachable.
Qed.

Lemma data_series_persist_witness :
  let st := afterDatas ex_fs_two "/data" setup in
  let st' := afterDatas ex_fs_unreadable "/data"
               (after ex_docker_db_only
                  (afterDatas ex_fs_unmounted "/data" (after ex_docker_two st))) in
  is_Some (registry st' dataSize !! dataLabels "pgdata") ∧ knownDataNames st' = ∅.
Proof.
  apply (data_series_persist "/data"
           [(ex_docker_two, ex_fs_unmounted); (ex_docker_db_only, ex_fs_unreadable)]
           (afterDatas ex_fs_two "/data" setup)).
  - apply (reachable_updateDatas ex_fs_two "/data" setup); [constructor|reflexivity].
  - reflexivity.
  - reflexivity.
  - by eexists.
Defined.

(** X12: let the loop start in a state where every live container-level and
    network-level label set is recorded in the snapshots (as after [setup]),
    and let every turn meet the condition that a key carries one label set.
    After any number of turns that complete, the label sets live in the
    container-level and network-level gauges are exactly those derived from
    the entities sampled in the last turn, and the state is fit for the next
    turn. *)
Theorem convergence_over_turns basepath answers docker os st st' :
  snapshot_keyed st →
  tracked st →
  stable_run basepath (answers ++ [(docker, os)]) st →
  updateMetrics basepath (answers ++ [(docker, os)]) st = Ok st' →
  (∀ g L, kindOf g = ContainerKind →
          (is_Some (registry st' g !! L) ↔ L ∈ observedContainerLabels docker))
  ∧ (∀ g L, kindOf g = NetworkKind →
            (is_Some (registry st' g !! L) ↔ L ∈ observedNetworkLabels docker))
  ∧ snapshot_keyed st'
  ∧ tracked st'.
Proof.
  revert st. induction answers as [|[docker1 os1] rest IH]; intros st Hkeyed Htracked; cbn.
  - intros [Hkeys _].
    destruct (updateMetricsStep docker os basepath st) as [st1|msg] eqn:Hstep; [|done].
    cbn. intros [= <-]. by eapply updateMetricsStep_exact.
  - intros [Hkeys Hstable].
    destruct (updateMetricsStep docker1 os1 basepath st) as [st1|msg] eqn:Hstep; [|done].
    cbn. intros Hrun.
    destruct (updateMetricsStep_exact _ _ _ _ _ Hkeyed Htracked Hkeys Hstep)
      as (_ & _ & Hkeyed1 & Htracked1).
    by apply (IH st1).
Qed.

Lemma convergence_over_turns_witness :
  let docker := ex_docker 150000000 30000000 in
  let st' := afterDatas ex_fs_unmounted "/data"
               (after docker
                  (afterDatas ex_fs_mounted "/data"
                     (after (ex_docker 100000000 20000000) setup))) in
  (∀ g L, kindOf g = ContainerKind →
          (is_Some (registry st' g !! L) ↔ L ∈ observedContainerLabels docker))
  ∧ (∀ g L, kindOf g = NetworkKind →
            (is_Some (registry st' g !! L) ↔ L ∈ observedNetworkLabels docker))
  ∧ snapshot_keyed st'
  ∧ tracked st'.
Proof.
  apply (convergence_over_turns "/data" [(ex_docker 100000000 20000000, ex_fs_mounted)]
           (ex_docker 150000000 30000000) ex_fs_unmounted setup).
  - apply snapshot_keyed_setup.
  - apply tracked_setup.
  - assert (updateMetricsStep (ex_docker 100000000 20000000) ex_fs_mounted "/data" setup
            = Ok (updateDatasEffect ex_fs_mounted "/data"
                    (after (ex_docker 100000000 20000000) setup))) as Hturn.
    { apply (updateDatas_total ex_fs_mounted "/data" _ ["pgdata"%string] eq_refl).
      intros p ->%list_elem_of_singleton. reflexivity. }
    change (key_determines_labels (ex_docker 100000000 20000000) setup
            ∧ match updateMetricsStep (ex_docker 100000000 20000000) ex_fs_mounted
                      "/data" setup with
              | Ok st1 =>
                  stable_run "/data" [(ex_docker 150000000 30000000, ex_fs_unmounted)] st1
              | Panic _ => True
              end).
    rewrite Hturn.
    split; [by apply (key_determines_labels_one _ ex_web)|].
    split; [|by destruct (updateMetricsStep _ _ _ _)].
    apply (key_determines_labels_updateDatasEffect _ ex_fs_mounted "/data"
             (after (ex_docker 100000000 20000000) setup)).
    apply ex_key_determines_labels.
  - reflexivity.
Defined.

(** * Properties of [setup] and [main] *)

Lemma networkLabels_extend container name0 intf key :
  key ≠ "interface"%string →
  networkLabels container name0 intf !! key = containerLabels container name0 !! key.
Proof.
  intros Hkey.
  destruct (decide (key = "container_id"%string)) as [->|?]; [done|].
  destruct (decide (key = "container_name"%string)) as [->|?]; [done|].
  destruct (decide (key = "compose_project"%string)) as [->|?]; [done|].
  destruct (decide (key = "compose_service"%string)) as [->|?]; [done|].
  destruct (decide (key = "container_image_id"%string)) as [->|?]; [done|].
  destruct (decide (key = "container_image_name"%string)) as [->|?]; [done|].
  unfold networkLabels, containerLabels.
  by rewrite !lookup_insert_ne, !lookup_singleton_ne by done.
Qed.

(** X13: every label literal the passes build carries exactly the label
    names its vector was created with in [setup], for every container,
    interface and path, so [With] and [Delete] always find the vector's
    schema; the network literal is the container literal plus [interface];
    and [setup] registers each of the nineteen vectors once, under names
    that are pairwise distinct. *)
Theorem label_literals_match_setup :
  (∀ g container name0 intf path,
     dom (labelsFor g container name0 intf path)
     = (list_to_set (gaugeLabelNames g) : gset string))
  ∧ (∀ container name0 intf key,
       key ≠ "interface"%string →
       networkLabels container name0 intf !! key = containerLabels container name0 !! key)
  ∧ (∀ g, g ∈ registered)
  ∧ NoDup registered
  ∧ NoDup (gaugeName <$> registered).
Proof.
  split; [|split; [|split; [|split]]].
  - intros g container name0 intf path.
    destruct g; unfold labelsFor, containerLabels, networkLabels, dataLabels; cbn;
      rewrite ?dom_insert_L, ?dom_singleton_L; set_solver.
  - intros container name0 intf key. apply networkLabels_extend.
  - intros g. unfold registered. destruct g; set_solver.
  - by apply (bool_decide_unpack _); vm_compute.
  - by apply (bool_decide_unpack _); vm_compute.
Qed.

(** X14: started without a path argument, [main] takes ["/"] as base path;
    with that base path a filesystem pass does not read any directory: it
    stats the one path ["///"], and when that succeeds it completes, logs
    nothing, and in a state the loop reaches exposes the statistics under
    [data_name="/"]. *)
Theorem default_basepath_is_root os args st fs :
  length args ≤ 1 →
  reachable st →
  Statfs os "///" = inr fs →
  mainBasepath os args = Ok "/"%string
  ∧ dataPaths os "/" = inr ["/"%string]
  ∧ ∃ st', updateDatas os "/" st = Ok st'
           ∧ logged st' = logged st
           ∧ registry st' dataInodes !! dataLabels "/" = Some (float64 (unix.Files fs))
           ∧ registry st' dataInodesFree !! dataLabels "/" = Some (float64 (unix.Ffree fs)).
Proof.
  intros Hargs Hreach Hfs.
  assert (∀ g v, dataValue g fs = Some v →
            registry (updateDatasEffect os "/" st) g !! dataLabels "/" = Some v) as Hvalue.
  { intros g v Hv.
    destruct (updateDatasEffect_paths os "/" st ["/"%string] eq_refl) as (_ & _ & ->).
    rewrite (reachable_no_known_data st Hreach), removeVanished_empty.
    eapply (loop_value os "/" ["/"%string]); [by left|exact Hfs|done]. }
  split; [|split; [done|]].
  - unfold mainBasepath. by rewrite decide_False by lia.
  - exists (updateDatasEffect os "/" st). split; [|split; [|split]].
    + apply (updateDatas_total os "/" st ["/"%string] eq_refl).
      intros path ->%list_elem_of_singleton. unfold withPanics.
      by destruct (Statfs os _).
    + destruct (updateDatasEffect_paths os "/" st ["/"%string] eq_refl) as (_ & -> & _).
      cbn. change ("/" +:+ "/" +:+ "/")%string with "///"%string. by rewrite Hfs.
    + by apply Hvalue.
    + by apply Hvalue.
Qed.

Lemma default_basepath_is_root_witness :
  let st := after ex_docker_two setup in
  mainBasepath ex_fs_unreadable ["docker-stats"%string] = Ok "/"%string
  ∧ dataPaths ex_fs_unreadable "/" = inr ["/"%string]
  ∧ ∃ st', updateDatas ex_fs_unreadable "/" st = Ok st'
           ∧ logged st' = logged st
           ∧ registry st' dataInodes !! dataLabels "/" = Some 5000%float
           ∧ registry st' dataInodesFree !! dataLabels "/" = Some 4000%float.
Proof.
  apply (default_basepath_is_root ex_fs_unreadable ["docker-stats"%string]
           (after ex_docker_two setup) ex_statfs).
  - cbn. lia.
  - apply (reachable_updateContainers ex_docker_two setup); [constructor|reflexivity].
  - reflexivity.
Defined.

(** X15: given a path argument, [main] takes it as base path exactly when
    its directory can be read at start-up, and otherwise ends the process
    with the error of [ReadDir] before any pass runs; a filesystem pass over
    a base path other than ["/"] that has become unreadable since completes
    and changes nothing but the log. *)
Theorem path_argument_checked os args arg1 :
  args !! 1 = Some arg1 →
  (∀ files, ReadDir os arg1 = inr files → mainBasepath os args = Ok arg1)
  ∧ (∀ err, ReadDir os arg1 = inl err → mainBasepath os args = Panic err)
  ∧ (∀ os' st err,
       arg1 ≠ "/"%string → ReadDir os' arg1 = inl err →
       ∃ st', updateDatas os' arg1 st = Ok st'
              ∧ registry st' = registry st
              ∧ knownDataNames st' = knownDataNames st
              ∧ logged st' = logged st ++ ["Failed to get data names: " +:+ err]).
Proof.
  intros Harg.
  assert (1 < length args) as Hlen by (by eapply lookup_lt_Some).
  split; [|split].
  - intros files Hread. unfold mainBasepath.
    rewrite decide_True by done. rewrite Harg. cbn. by rewrite Hread.
  - intros err Hread. unfold mainBasepath.
    rewrite decide_True by done. rewrite Harg. cbn. by rewrite Hread.
  - intros os' st err Hne Hread.
    assert (dataPaths os' arg1 = inl err) as Hpaths.
    { unfold dataPaths. destruct (String.eqb_spec arg1 "/"); [done|]. by rewrite Hread. }
    exists (updateDatasEffect os' arg1 st).
    split; [by eapply updateDatas_unreadable|].
    unfold updateDatasEffect. by rewrite Hpaths.
Qed.

Lemma path_argument_checked_witness :
  (∀ files, ReadDir ex_fs_two "/data" = inr files →
            mainBasepath ex_fs_two ["docker-stats"; "/data"]%string = Ok "/data"%string)
  ∧ (∀ err, ReadDir ex_fs_two "/data" = inl err →
            mainBasepath ex_fs_two ["docker-stats"; "/data"]%string = Panic err)
  ∧ (∀ os' st err,
       "/data"%string ≠ "/"%string → ReadDir os' "/data" = inl err →
       ∃ st', updateDatas os' "/data" st = Ok st'
              ∧ registry st' = registry st
              ∧ knownDataNames st' = knownDataNames st
              ∧ logged st' = logged st ++ ["Failed to get data names: " +:+ err]).
Proof. apply (path_argument_checked ex_fs_two). reflexivity. Defined.

(** * How passes compose *)

Section fold_congruence.

Context {K : Type} `{Countable K} {V : Type}.
Variable proj : Cycle → gmap K V.
Variable ins : Write → option (K * V).
Hypothesis proj_apply : ∀ cy w,
  proj (applyWrite cy w) =
    match ins w with
    | Some (k, v) => <[k := v]> (proj cy)
    | None => proj cy
    end.

(** The map at the end depends on the map at the start and on the writes. *)
Lemma fold_proj_congr ws cy1 cy2 :
  proj cy1 = proj cy2 → proj (foldl applyWrite cy1 ws) = proj (foldl applyWrite cy2 ws).
Proof.
  intros Heq. induction ws as [|w ws IH] using rev_ind; [done|].
  by rewrite !(fold_snoc _ _ proj_apply), IH.
Qed.

End fold_congruence.

Section pass_lookups.

Variable docker : client.Client.
Variables st st' : State.
Hypothesis Hpass : updateContainers docker st = Ok st'.

(** What a write of the pass sets is in the registry after the pass. *)
Lemma written_value g L v w :
  snapshot_keyed st →
  w ∈ passWrites docker (client.ContainerList docker).1 →
  writeValue g w = Some (L, v) →
  registry st' g !! L = Some v.
Proof.
  intros Hkeyed Hw Hset. destruct w as [| c name0 stats | c name0 intf net]; cbn in Hset.
  - done.
  - destruct (containerValue g stats) as [v'|] eqn:Hv; [|done]. cbn in Hset.
    apply Some_pair_inv in Hset as [<- <-].
    apply elem_of_passWrites_container in Hw. by eapply sampled_container_value.
  - destruct (networkValue g net) as [v'|] eqn:Hv; [|done]. cbn in Hset.
    apply Some_pair_inv in Hset as [<- <-].
    apply elem_of_passWrites_network in Hw as (Hin & Hname & stats & Hstats & Hnet).
    by eapply (sampled_network_value _ _ _ Hkeyed Hpass c name0 stats).
Qed.

(** A series that no removal loop picks and that is live before the pass is
    live after it. *)
Lemma kept_live g L :
  (kindOf g = ContainerKind →
   ∀ id, knownContainerIDs st !! id = Some L → is_Some (knownContainerIDs st' !! id)) →
  (kindOf g = NetworkKind →
   ∀ key, knownContainerNetworks st !! key = Some L →
          is_Some (knownContainerNetworks st' !! key)) →
  is_Some (registry st g !! L) →
  is_Some (registry st' g !! L).
Proof.
  intros Hids Hnets Hlive.
  destruct (updateContainers_Ok _ _ _ Hpass) as (_ & Hi & Hn & _ & _ & ->).
  rewrite Hi in Hids. rewrite Hn in Hnets.
  rewrite !removeVanished_kept by done.
  unfold endCycle. apply (fold_lookup_mono _ _ (applyWrite_gauges g)).
  by rewrite startCycle_gauges.
Qed.

End pass_lookups.

(** X16: a label set that is live before a pass, that the removal loops do
    not pick (every key it is recorded under is sampled again) and that no
    entity sampled in the pass carries, is still live after the pass with the
    value it had: so the series of a container that is sampled again under
    the same ID with another name stay in the registry, stale. *)
Theorem stale_label_set_stays docker st st' g L v :
  updateContainers docker st = Ok st' →
  kindOf g = ContainerKind →
  registry st g !! L = Some v →
  (∀ id, knownContainerIDs st !! id = Some L →
         ∃ container name0 stats,
           sampled docker container name0 stats ∧ types.ID container = id) →
  (∀ container name0 stats,
     sampled docker container name0 stats → containerLabels container name0 ≠ L) →
  registry st' g !! L = Some v.
Proof.
  intros Hpass Hg Hlive Hkeys Hother.
  destruct (kept_live docker st st' Hpass g L) as [v' Hv'].
  - intros _ id (c & name0 & stats & Hs & <-)%Hkeys. by eapply new_ids_complete.
  - intros Hn. congruence.
  - by eexists.
  - rewrite Hv'. f_equal.
    destruct (registry_sound _ _ _ Hpass _ _ _ Hv') as ([Hold|(w & Hw & Hset)] & _);
      [congruence|].
    destruct w as [| c name0 stats | c name0 intf net]; cbn in Hset; [done| |].
    + destruct (containerValue g stats); [|done]. cbn in Hset.
      apply Some_pair_inv in Hset as [HL _].
      apply elem_of_passWrites_container in Hw. by destruct (Hother c name0 stats Hw).
    + destruct (networkValue g net) eqn:Hnv; [|done].
      assert (kindOf g = NetworkKind) by (by apply (networkValue_kind g net)). congruence.
Qed.

Lemma stale_label_set_stays_witness :
  registry (after ex_docker_renamed (after (ex_docker 100000000 20000000) setup))
    memoryLimit !! containerLabels ex_web "/web-1" = Some 200000000%float.
Proof.
  apply (stale_label_set_stays ex_docker_renamed (after (ex_docker 100000000 20000000) setup)).
  - reflexivity.
  - reflexivity.
  - reflexivity.
  - intros id Hid. exists ex_web_renamed, "/web-2"%string, (ex_stats 100000000 20000000).
    split; [split; [by apply list_elem_of_singleton|by split]|].
    destruct (snapshot_keyed_updateContainers (ex_docker 100000000 20000000) setup _ eq_refl)
      as [Hkeyed _].
    apply Hkeyed in Hid. rewrite containerLabels_id in Hid. by injection Hid as <-.
  - intros c name0 stats (->%list_elem_of_singleton & _ & Hname) Heq.
    injection Hname as <-.
    apply (f_equal (λ m : gmap string string, m !! "container_name"%string)) in Heq.
    by vm_compute in Heq.
Defined.

(** X17: a pass repeated over the same answers of the runtime completes and
    changes nothing but the log: the snapshots it leaves are those of the
    first pass and every series of the registry keeps its value; nothing is
    removed and nothing is added. *)
Theorem repeated_pass_changes_nothing docker st st1 :
  snapshot_keyed st →
  updateContainers docker st = Ok st1 →
  ∃ st2, updateContainers docker st1 = Ok st2
    ∧ knownContainerIDs st2 = knownContainerIDs st1
    ∧ knownContainerNetworks st2 = knownContainerNetworks st1
    ∧ knownDataNames st2 = knownDataNames st1
    ∧ ∀ g L, registry st2 g !! L = registry st1 g !! L.
Proof.
  intros Hkeyed Hpass1.
  destruct (updateContainers_total docker st1) as [st2 Hpass2].
  { intros c stats Hin Hstats.
    destruct (updateContainers_Ok _ _ _ Hpass1) as (Hloop & _).
    destruct (forContainers_named _ _ _ _ _ _ Hloop Hin Hstats) as [name0 Hname0].
    intros Hnames. by rewrite Hnames in Hname0. }
  exists st2. split; [done|].
  assert (knownContainerIDs st2 = knownContainerIDs st1) as Hids.
  { destruct (updateContainers_Ok _ _ _ Hpass1) as (_ & -> & _).
    destruct (updateContainers_Ok _ _ _ Hpass2) as (_ & -> & _).
    unfold endCycle. apply (fold_proj_congr _ _ applyWrite_ids).
    by rewrite !startCycle_ids. }
  assert (knownContainerNetworks st2 = knownContainerNetworks st1) as Hnets.
  { destruct (updateContainers_Ok _ _ _ Hpass1) as (_ & _ & -> & _).
    destruct (updateContainers_Ok _ _ _ Hpass2) as (_ & _ & -> & _).
    unfold endCycle. apply (fold_proj_congr _ _ applyWrite_nets).
    by rewrite !startCycle_nets. }
  split; [done|]. split; [done|].
  split; [by eapply updateContainers_known_data|].
  intros g L. destruct (registry st2 g !! L) as [v|] eqn:Hv2.
  - destruct (registry_sound _ _ _ Hpass2 _ _ _ Hv2) as ([Hold|(w & Hw & Hset)] & _);
      [done|].
    symmetry. by eapply written_value.
  - destruct (registry st1 g !! L) as [v|] eqn:Hv1; [|done].
    destruct (kept_live docker st1 st2 Hpass2 g L) as [v' Hv']; [..|congruence].
    + intros _ id Hid. rewrite Hids. by eexists.
    + intros _ key Hkey. rewrite Hnets. by eexists.
    + by eexists.
Qed.

Lemma repeated_pass_changes_nothing_witness :
  let st1 := after ex_docker_two (after ex_docker_renamed setup) in
  ∃ st2, updateContainers ex_docker_two st1 = Ok st2
    ∧ knownContainerIDs st2 = knownContainerIDs st1
    ∧ knownContainerNetworks st2 = knownContainerNetworks st1
    ∧ knownDataNames st2 = knownDataNames st1
    ∧ ∀ g L, registry st2 g !! L = registry st1 g !! L.
Proof.
  apply (repeated_pass_changes_nothing ex_docker_two (after ex_docker_renamed setup)).
  - apply (snapshot_keyed_updateContainers ex_docker_renamed setup). reflexivity.
  - reflexivity.
Defined.

Section two_passes.

Variables dockerA dockerB : client.Client.
Variables st stA stB : State.
Hypothesis Hkeyed : snapshot_keyed st.
Hypothesis HpassA : updateContainers dockerA st = Ok stA.
Hypothesis HpassB : updateContainers dockerB st = Ok stB.
Hypothesis Hwrites : ∀ w,
  w ∈ passWrites dockerA (client.ContainerList dockerA).1 →
  w ∈ passWrites dockerB (client.ContainerList dockerB).1.
Hypothesis Hsampled : ∀ container name0 stats,
  sampled dockerA container name0 stats → sampled dockerB container name0 stats.

(** Two passes from one state: what is live after the one that writes less
    and samples less is live, with the same value, after the other. *)
Lemma pass_lookup_transfer g L v :
  (∀ w v', w ∈ passWrites dockerB (client.ContainerList dockerB).1 →
           writeValue g w = Some (L, v') →
           w ∈ passWrites dockerA (client.ContainerList dockerA).1) →
  registry stA g !! L = Some v → registry stB g !! L = Some v.
Proof.
  intros Hback HvA.
  destruct (registry_sound _ _ _ HpassA _ _ _ HvA)
    as ([Hold|(w & Hw & Hset)] & Hids & Hnets).
  - destruct (kept_live dockerB st stB HpassB g L) as [v' Hv'].
    + intros Hg id Hid.
      destruct (Hids Hg id Hid) as [L' HL'].
      destruct (new_ids_sound _ _ _ HpassA _ _ HL') as (c & name0 & stats & Hs & <- & _).
      eapply new_ids_complete; [exact HpassB|]. by apply Hsampled.
    + intros Hg key Hkey.
      destruct (Hnets Hg key Hkey) as [L' HL'].
      destruct (new_nets_sound _ _ _ HpassA _ _ HL')
        as (c & name0 & stats & intf & Hs & Hintf & <- & _).
      eapply new_nets_complete; [exact HpassB| |done]. by apply Hsampled.
    + by eexists.
    + rewrite Hv'. f_equal.
      destruct (registry_sound _ _ _ HpassB _ _ _ Hv') as ([?|(w & Hw & Hset)] & _);
        [congruence|].
      pose proof (written_value _ _ _ HpassA g L v' w Hkeyed (Hback _ _ Hw Hset) Hset).
      congruence.
  - by eapply written_value; [exact HpassB|..]; eauto.
Qed.

End two_passes.

Lemma stepWrites_ext dockerA dockerB container :
  (∀ id, client.ContainerStatsOneShot dockerB id = client.ContainerStatsOneShot dockerA id) →
  stepWrites dockerB container = stepWrites dockerA container.
Proof. intros Hstats. unfold stepWrites. by rewrite Hstats. Qed.

Lemma passWrites_permutation dockerA dockerB w :
  (client.ContainerList dockerB).1 ≡ₚ (client.ContainerList dockerA).1 →
  (∀ id, client.ContainerStatsOneShot dockerB id = client.ContainerStatsOneShot dockerA id) →
  w ∈ passWrites dockerB (client.ContainerList dockerB).1 ↔
  w ∈ passWrites dockerA (client.ContainerList dockerA).1.
Proof.
  intros Hperm Hstats. unfold passWrites. rewrite !list_elem_of_bind.
  split; intros (c & Hw & Hc); exists c.
  - rewrite <-Hperm. by rewrite <-(stepWrites_ext dockerA dockerB).
  - rewrite Hperm. by rewrite (stepWrites_ext dockerA dockerB).
Qed.

Lemma sampled_permutation dockerA dockerB container name0 stats :
  (client.ContainerList dockerB).1 ≡ₚ (client.ContainerList dockerA).1 →
  (∀ id, client.ContainerStatsOneShot dockerB id = client.ContainerStatsOneShot dockerA id) →
  sampled dockerB container name0 stats ↔ sampled dockerA container name0 stats.
Proof. intros Hperm Hstats. unfold sampled. by rewrite Hperm, Hstats. Qed.

(** X18: the order in which the runtime lists the containers does not matter
    for the registry: two passes from the same state over listings that are
    permutations of one another, with the same samples, complete together,
    and then every series has the same value after both and the snapshots
    hold the same keys. *)
Theorem listing_order_irrelevant docker docker' st st1 :
  snapshot_keyed st →
  (client.ContainerList docker').1 ≡ₚ (client.ContainerList docker).1 →
  (∀ id, client.ContainerStatsOneShot docker' id = client.ContainerStatsOneShot docker id) →
  updateContainers docker st = Ok st1 →
  ∃ st2, updateContainers docker' st = Ok st2
    ∧ (∀ g L, registry st2 g !! L = registry st1 g !! L)
    ∧ (∀ id, is_Some (knownContainerIDs st2 !! id) ↔ is_Some (knownContainerIDs st1 !! id))
    ∧ (∀ key, is_Some (knownContainerNetworks st2 !! key)
              ↔ is_Some (knownContainerNetworks st1 !! key)).
Proof.
  intros Hkeyed Hperm Hstats Hpass1.
  destruct (updateContainers_total docker' st) as [st2 Hpass2].
  { intros c stats Hin Hc. rewrite Hperm in Hin. rewrite Hstats in Hc.
    destruct (updateContainers_Ok _ _ _ Hpass1) as (Hloop & _).
    destruct (forContainers_named _ _ _ _ _ _ Hloop Hin Hc) as [name0 Hname0].
    intros Hnames. by rewrite Hnames in Hname0. }
  exists st2. split; [done|].
  pose proof (λ w, passWrites_permutation docker docker' w Hperm Hstats) as Hw.
  pose proof (λ c n s, sampled_permutation docker docker' c n s Hperm Hstats) as Hs.
  split; [|split].
  - intros g L.
    destruct (registry st2 g !! L) as [v2|] eqn:Hv2.
    + symmetry. eapply (pass_lookup_transfer docker' docker st st2 st1); try done.
      * intros w. apply Hw.
      * intros c n s. apply Hs.
      * intros w v' Hin _. by apply Hw.
    + destruct (registry st1 g !! L) as [v1|] eqn:Hv1; [|done].
      rewrite <-Hv2.
      eapply (pass_lookup_transfer docker docker' st st1 st2); try done.
      * intros w. apply Hw.
      * intros c n s. apply Hs.
      * intros w v' Hin _. by apply Hw.
  - intros id. split.
    + intros [L (c & n & s & Hc & <- & _)%(new_ids_sound _ _ _ Hpass2)].
      eapply new_ids_complete; [exact Hpass1|]. by apply Hs.
    + intros [L (c & n & s & Hc & <- & _)%(new_ids_sound _ _ _ Hpass1)].
      eapply new_ids_complete; [exact Hpass2|]. by apply Hs.
  - intros key. split.
    + intros [L (c & n & s & i & Hc & Hi & <- & _)%(new_nets_sound _ _ _ Hpass2)].
      eapply new_nets_complete; [exact Hpass1| |done]. by apply Hs.
    + intros [L (c & n & s & i & Hc & Hi & <- & _)%(new_nets_sound _ _ _ Hpass1)].
      eapply new_nets_complete; [exact Hpass2| |done]. by apply Hs.
Qed.

Lemma listing_order_irrelevant_witness :
  let st := after ex_docker_renamed setup in
  let st1 := after ex_docker_two st in
  ∃ st2, updateContainers ex_docker_two_reversed st = Ok st2
    ∧ (∀ g L, registry st2 g !! L = registry st1 g !! L)
    ∧ (∀ id, is_Some (knownContainerIDs st2 !! id) ↔ is_Some (knownContainerIDs st1 !! id))
    ∧ (∀ key, is_Some (knownContainerNetworks st2 !! key)
              ↔ is_Some (knownContainerNetworks st1 !! key)).
Proof.
  apply (listing_order_irrelevant ex_docker_two ex_docker_two_reversed
           (after ex_docker_renamed setup)).
  - apply (snapshot_keyed_updateContainers ex_docker_renamed setup). reflexivity.
  - exact (reverse_Permutation [ex_web; ex_nameless; ex_db]).
  - reflexivity.
  - reflexivity.
Defined.
